(** * cli_download_manager: the transfer engine of [download_manager.py]

    A shallow embedding of the parts of [download_manager.py] that decide
    how a transfer behaves: [parse_size_to_bytes], the per-item state of
    [DownloadItem], its button handler, the HTTP strategy [download_file]
    and the yt-dlp strategy [download_youtube_video] with its progress
    parser [_parse_yt_dlp_progress].

    Conventions.
    - Python [str] values are [string]s over 7-bit characters; the methods
      used by the source ([upper], [endswith], [strip], slicing) are
      modelled on that range.
    - Python [float] is IEEE-754 binary64, taken from the standard
      library's [SpecFloat] with [prec = 53] and [emax = 1024].
    - Python [int] is [Z].
    - An exception is a value of [exn]; a computation that can raise
      returns a [result]. *)

From Stdlib Require Import ZArith Lia Bool List Ascii String.
From Stdlib Require Import SpecFloat.
From stdpp Require Import base option strings gmap pretty.

Local Open Scope string_scope.
Local Open Scope Z_scope.

(** ** Exceptions and results *)

Inductive exn_class :=
  | ValueError
  | OverflowError
  | ZeroDivisionError
  | HTTPStatusError
  | NetworkError
  | OSError
  | CancelledError
  | UnboundLocalError.

(** [exn_text] is what [str(e)] gives. *)
Record exn := Exn { exn_cls : exn_class; exn_text : string }.

Inductive result (A : Type) :=
  | Ok (a : A)
  | Raise (e : exn).
Arguments Ok {A} a.
Arguments Raise {A} e.

#[global] Instance result_ret : MRet result := fun _ a => Ok a.
#[global] Instance result_bind : MBind result := fun _ _ k r =>
  match r with
  | Ok a => k a
  | Raise e => Raise e
  end.

(** [try: r except ValueError: h] *)
Definition except_ValueError {A} (r : result A) (h : result A) : result A :=
  match r with
  | Raise (Exn ValueError _) => h
  | _ => r
  end.

(** ** [str] methods *)

Module PyStr.

Definition is_lower (c : ascii) : bool :=
  let n := N_of_ascii c in ((97 <=? n) && (n <=? 122))%N.

Definition upper_char (c : ascii) : ascii :=
  if is_lower c then ascii_of_N (N_of_ascii c - 32) else c.

(** [s.upper()] *)
Fixpoint upper (s : string) : string :=
  match s with
  | EmptyString => EmptyString
  | String c s' => String (upper_char c) (upper s')
  end.

(** The last character of [s], if any. *)
Fixpoint last (s : string) : option ascii :=
  match s with
  | EmptyString => None
  | String c EmptyString => Some c
  | String _ s' => last s'
  end.

(** [s.endswith(c)] for a one-character suffix. *)
Definition endswith (s : string) (c : ascii) : bool :=
  match last s with
  | Some d => Ascii.eqb d c
  | None => false
  end.

(** [s[:-1]] *)
Fixpoint drop_last (s : string) : string :=
  match s with
  | EmptyString => EmptyString
  | String _ EmptyString => EmptyString
  | String c s' => String c (drop_last s')
  end.

(** [str.isspace] on one 7-bit character: tab, LF, VT, FF, CR, the four
    separators 0x1c..0x1f and the space. *)
Definition is_space (c : ascii) : bool :=
  let n := N_of_ascii c in
  (((9 <=? n) && (n <=? 13)) || ((28 <=? n) && (n <=? 32)))%N.

Fixpoint lstrip (s : string) : string :=
  match s with
  | String c s' => if is_space c then lstrip s' else s
  | EmptyString => EmptyString
  end.

(** Right strip: a character is kept when it is not a space or when
    something survives to its right. *)
Fixpoint rstrip (s : string) : string :=
  match s with
  | EmptyString => EmptyString
  | String c s' =>
      match rstrip s' with
      | EmptyString => if is_space c then EmptyString else String c EmptyString
      | t => String c t
      end
  end.

(** [s.strip()] *)
Definition strip (s : string) : string := rstrip (lstrip s).

Definition is_digit (c : ascii) : bool :=
  let n := N_of_ascii c in ((48 <=? n) && (n <=? 57))%N.

Definition digit_val (c : ascii) : Z := Z.of_N (N_of_ascii c) - 48.

End PyStr.

(** [len(s)] *)
Definition len (s : string) : Z := Z.of_nat (String.length s).

(** ** [float]: IEEE-754 binary64 *)

Module PyFloat.

Definition prec : Z := 53.
Definition emax : Z := 1024.

Definition float := spec_float.

Definition mul : float -> float -> float := SFmul prec emax.
Definition div : float -> float -> float := SFdiv prec emax.
Definition sub : float -> float -> float := SFsub prec emax.
Definition ltb : float -> float -> bool := SFltb.

Definition zero : float := S754_zero false.

Definition is_zero (x : float) : bool :=
  match x with S754_zero _ => true | _ => false end.

(** The nearest binary64 to the integer [z] (ties to even); infinite
    when [z] is out of range. *)
Definition nearest_of_Z (z : Z) : float :=
  binary_normalize prec emax z 0 false.

(** The nearest binary64 to [(-1)^s * m * 10^d]: an integer is
    normalized, a proper fraction is the correctly rounded quotient of
    two integers. *)
Definition nearest_of_decimal (s : bool) (m : Z) (d : Z) : float :=
  match m with
  | Zpos p =>
      if 0 <=? d
      then binary_normalize prec emax (cond_Zopp s (m * 10 ^ d)) 0 false
      else div (S754_finite s p 0)
               (S754_finite false (Z.to_pos (10 ^ (- d))) 0)
  | _ => S754_zero s
  end.

(** *** [float(str)] *)

(** Underscores are accepted only between two digits; they are removed
    before the number is read. [prev] is the previous character. *)
Fixpoint remove_underscores (prev : ascii) (s : string) : option string :=
  match s with
  | EmptyString => if Ascii.eqb prev "_" then None else Some EmptyString
  | String c s' =>
      if Ascii.eqb c "_"
      then if PyStr.is_digit prev then remove_underscores c s' else None
      else if Ascii.eqb prev "_" && negb (PyStr.is_digit c) then None
      else option_map (String c) (remove_underscores c s')
  end.

(** Reads a run of decimal digits: the number read so far, how many
    digits were read, and the rest. *)
Fixpoint read_digits (s : string) (acc : Z) (n : Z) : Z * Z * string :=
  match s with
  | String c s' =>
      if PyStr.is_digit c
      then read_digits s' (10 * acc + PyStr.digit_val c) (n + 1)
      else (acc, n, s)
  | EmptyString => (acc, n, s)
  end.

Definition read_sign (s : string) : bool * string :=
  match s with
  | String "-" s' => (true, s')
  | String "+" s' => (false, s')
  | _ => (false, s)
  end.

(** The exponent part [e[+-]digits], or nothing. [None] when an [e] is
    not followed by a digit or characters remain. *)
Definition read_exponent (s : string) : option Z :=
  match s with
  | EmptyString => Some 0
  | String c s' =>
      if Ascii.eqb c "e" || Ascii.eqb c "E" then
        let '(sg, s1) := read_sign s' in
        let '(e, n, s2) := read_digits s1 0 0 in
        if (0 <? n) && String.eqb s2 "" then Some (cond_Zopp sg e) else None
      else None
  end.

(** An unsigned decimal literal [digits[.digits][exponent]] or
    [.digits[exponent]], as a mantissa and a power of ten. *)
Definition read_decimal (s : string) : option (Z * Z) :=
  let '(m1, n1, s1) := read_digits s 0 0 in
  let '(m2, n2, s2) :=
    match s1 with
    | String "." s1' => read_digits s1' m1 0
    | _ => (m1, 0, s1)
    end in
  if 0 <? n1 + n2 then
    match read_exponent s2 with
    | Some e => Some (m2, e - n2)
    | None => None
    end
  else None.

Definition could_not_convert : exn :=
  Exn ValueError "could not convert string to float".

(** [float(s)] for a string [s]. *)
Definition of_string (s : string) : result float :=
  let '(sg, body) := read_sign (PyStr.strip s) in
  let low := PyStr.upper body in
  if String.eqb low "INF" || String.eqb low "INFINITY" then Ok (S754_infinity sg)
  else if String.eqb low "NAN" then Ok S754_nan
  else
    match remove_underscores "000" body with
    | Some t =>
        match read_decimal t with
        | Some (m, d) => Ok (nearest_of_decimal sg m d)
        | None => Raise could_not_convert
        end
    | None => Raise could_not_convert
    end.

(** [float(n)] for an [int]: raises when [n] is too large. *)
Definition of_int (n : Z) : result float :=
  match nearest_of_Z n with
  | S754_infinity _ => Raise (Exn OverflowError "int too large to convert to float")
  | f => Ok f
  end.

(** [int(x)]: truncation toward zero. *)
Definition to_int (x : float) : result Z :=
  match x with
  | S754_zero _ => Ok 0
  | S754_finite s m e => Ok (cond_Zopp s (Z.shiftl (Zpos m) e))
  | S754_infinity _ => Raise (Exn OverflowError "cannot convert float infinity to integer")
  | S754_nan => Raise (Exn ValueError "cannot convert float NaN to integer")
  end.

(** [x * n] and [x / n] with [x] a float and [n] an int. *)
Definition mul_int (x : float) (n : Z) : result float :=
  (y ← of_int n; Ok (mul x y)).

Definition float_division_by_zero : exn :=
  Exn ZeroDivisionError "float division by zero".

Definition truediv (x y : float) : result float :=
  if is_zero y then Raise float_division_by_zero else Ok (div x y).

Definition div_int (x : float) (n : Z) : result float :=
  (y ← of_int n; truediv x y).

(** [n / y] with [n] an int and [y] a float. *)
Definition int_div (n : Z) (y : float) : result float :=
  (x ← of_int n; truediv x y).

End PyFloat.

(** ** Helper functions of the source *)

(** [parse_size_to_bytes(size_str)] *)
Definition parse_size_to_bytes (size_str : string) : result Z :=
  if String.eqb size_str "" || String.eqb size_str "N/A" then Ok 0
  else
    let size_str := PyStr.upper size_str in
    let size_str :=
      if PyStr.endswith size_str "B" then PyStr.drop_last size_str else size_str in
    if PyStr.endswith size_str "K" then
      (x ← PyFloat.of_string (PyStr.drop_last size_str);
       y ← PyFloat.mul_int x 1024;
       PyFloat.to_int y)
    else if PyStr.endswith size_str "M" then
      (x ← PyFloat.of_string (PyStr.drop_last size_str);
       y ← PyFloat.mul_int x (1024 ^ 2);
       PyFloat.to_int y)
    else if PyStr.endswith size_str "G" then
      (x ← PyFloat.of_string (PyStr.drop_last size_str);
       y ← PyFloat.mul_int x (1024 ^ 3);
       PyFloat.to_int y)
    else
      except_ValueError
        (x ← PyFloat.of_string size_str; PyFloat.to_int x)
        (Ok 0).

(** [int(s)] for a string [s] in base 10. *)
Definition int_of_string (s : string) : result Z :=
  let '(sg, body) := PyFloat.read_sign (PyStr.strip s) in
  match PyFloat.remove_underscores "000" body with
  | Some t =>
      let '(m, n, rest) := PyFloat.read_digits t 0 0 in
      if (0 <? n) && String.eqb rest ""
      then Ok (cond_Zopp sg m)
      else Raise (Exn ValueError "invalid literal for int() with base 10")
  | None => Raise (Exn ValueError "invalid literal for int() with base 10")
  end.

(** ** Regular expressions

    The fragment of [re] that the two patterns of the source use, with
    the module's matching discipline: alternatives are tried left to
    right, repetition is greedy and gives characters back one at a time. *)

Module Re.

Inductive regex :=
  | Eps
  | Bol                                (* ^ *)
  | Chr (c : ascii)                    (* a literal character *)
  | Cls (p : ascii -> bool)            (* one character of a class *)
  | Star (p : ascii -> bool)           (* class*, greedy *)
  | Seq (r1 r2 : regex)
  | Alt (r1 r2 : regex)
  | Group (i : nat) (r : regex).       (* capturing group number i+1 *)

Definition Plus (p : ascii -> bool) : regex := Seq (Cls p) (Star p).
Definition Opt (r : regex) : regex := Alt r Eps.

Fixpoint Lit (s : string) : regex :=
  match s with
  | EmptyString => Eps
  | String c s' => Seq (Chr c) (Lit s')
  end.

(** The classes [.], [\s], [\S] and [\d]. *)
Definition any (c : ascii) : bool := negb (Ascii.eqb c "010").
Definition space : ascii -> bool := PyStr.is_space.
Definition nonspace (c : ascii) : bool := negb (PyStr.is_space c).
Definition digit : ascii -> bool := PyStr.is_digit.

Definition captures := list (option string).

Section Matcher.
(** The subject string; positions count characters from its start. *)
Variable subject : string.

Definition cont := nat -> string -> captures -> option captures.

(** [run r i s caps k]: match [r] at position [i], where [s] is what
    is left of the subject, then continue with [k]. *)
Fixpoint run (r : regex) (i : nat) (s : string) (caps : captures)
    (k : cont) {struct r} : option captures :=
  match r with
  | Eps => k i s caps
  | Bol => match i with O => k i s caps | _ => None end
  | Chr c =>
      match s with
      | String d s' => if Ascii.eqb d c then k (S i) s' caps else None
      | EmptyString => None
      end
  | Cls p =>
      match s with
      | String d s' => if p d then k (S i) s' caps else None
      | EmptyString => None
      end
  | Star p =>
      (fix star (i : nat) (s : string) {struct s} : option captures :=
         match s with
         | String d s' =>
             if p d then
               match star (S i) s' with
               | Some c => Some c
               | None => k i s caps
               end
             else k i s caps
         | EmptyString => k i s caps
         end) i s
  | Seq r1 r2 => run r1 i s caps (fun j t c => run r2 j t c k)
  | Alt r1 r2 =>
      match run r1 i s caps k with
      | Some c => Some c
      | None => run r2 i s caps k
      end
  | Group g r1 =>
      run r1 i s caps
        (fun j t c => k j t (<[g := Some (String.substring i (j - i) subject)]> c))
  end.
End Matcher.

(** [re.match(r, s)]: anchored at the start, [n] groups; the result is
    [m.groups()]. *)
Definition match_ (n : nat) (r : regex) (s : string) : option captures :=
  run s r 0 s (replicate n None) (fun _ _ c => Some c).

End Re.

(** The pattern of [DownloadItem.__init__]:
    [^(https?://)?(www\.)?(youtube\.com|youtu\.be)/] *)
Definition youtube_re : Re.regex :=
  Re.Seq Re.Bol
 (Re.Seq (Re.Opt (Re.Group 0
            (Re.Seq (Re.Lit "http") (Re.Seq (Re.Opt (Re.Chr "s")) (Re.Lit "://")))))
 (Re.Seq (Re.Opt (Re.Group 1 (Re.Lit "www.")))
 (Re.Seq (Re.Group 2 (Re.Alt (Re.Lit "youtube.com") (Re.Lit "youtu.be")))
         (Re.Chr "/")))).

(** The pattern of [_parse_yt_dlp_progress]:
    [.*\s+(\d+\.\d+)% of (\S+) at (\S+)/s ETA (\S+)] *)
Definition progress_re : Re.regex :=
  Re.Seq (Re.Star Re.any)
 (Re.Seq (Re.Plus Re.space)
 (Re.Seq (Re.Group 0
            (Re.Seq (Re.Plus Re.digit) (Re.Seq (Re.Chr ".") (Re.Plus Re.digit))))
 (Re.Seq (Re.Lit "% of ")
 (Re.Seq (Re.Group 1 (Re.Plus Re.nonspace))
 (Re.Seq (Re.Lit " at ")
 (Re.Seq (Re.Group 2 (Re.Plus Re.nonspace))
 (Re.Seq (Re.Lit "/s ETA ")
         (Re.Group 3 (Re.Plus Re.nonspace))))))))).

(** ** The world of a [DownloadItem] *)

(** A number as Python has it: the reactive attribute [download_speed]
    receives both [int]s and [float]s. *)
Inductive pynum :=
  | NumInt (n : Z)
  | NumFloat (x : PyFloat.float).

(** The three custom messages. *)
Inductive message :=
  | DownloadSuccess (url : string)
  | DownloadFailed (url : string) (error : string)
  | DownloadCancelled (url : string).

(** A path names a regular file with its content, or a directory. *)
Inductive node :=
  | File (content : string)
  | Dir.

(** What the item does to the outside, in order. *)
Inductive io_event :=
  | HttpGet (url : string) (headers : gmap string string)
  | FileOpen (path : string) (mode : string)
  | FileWrite (path : string) (data : string)
  | FileRemove (path : string)
  | Spawn (argv : list string)
  | Terminate.

(** The handle returned by [run_worker]. *)
Record worker := Worker { w_resume_from : Z; w_cancelled : bool }.

(** The attributes fixed by [__init__]. *)
Record item := Item {
  url : string;
  is_youtube_dl : bool;
  filename : string;
  download_path : string
}.

(** The mutable attributes of the item, its two buttons, and the world
    around it. *)
Record state := State {
  bytes_downloaded : Z;
  total_size : Z;
  download_speed : pynum;
  is_paused : bool;
  download_worker : option worker;
  pause_resume_label : string;
  pause_resume_disabled : bool;
  cancel_label : string;
  removed : bool;
  fs : gmap string node;
  posted : list message;
  io : list io_event
}.

Definition set_bytes_downloaded (v : Z) (σ : state) : state :=
  State v (total_size σ) (download_speed σ) (is_paused σ) (download_worker σ)
        (pause_resume_label σ) (pause_resume_disabled σ) (cancel_label σ)
        (removed σ) (fs σ) (posted σ) (io σ).
Definition set_total_size (v : Z) (σ : state) : state :=
  State (bytes_downloaded σ) v (download_speed σ) (is_paused σ) (download_worker σ)
        (pause_resume_label σ) (pause_resume_disabled σ) (cancel_label σ)
        (removed σ) (fs σ) (posted σ) (io σ).
Definition set_download_speed (v : pynum) (σ : state) : state :=
  State (bytes_downloaded σ) (total_size σ) v (is_paused σ) (download_worker σ)
        (pause_resume_label σ) (pause_resume_disabled σ) (cancel_label σ)
        (removed σ) (fs σ) (posted σ) (io σ).
Definition set_is_paused (v : bool) (σ : state) : state :=
  State (bytes_downloaded σ) (total_size σ) (download_speed σ) v (download_worker σ)
        (pause_resume_label σ) (pause_resume_disabled σ) (cancel_label σ)
        (removed σ) (fs σ) (posted σ) (io σ).
Definition set_download_worker (v : option worker) (σ : state) : state :=
  State (bytes_downloaded σ) (total_size σ) (download_speed σ) (is_paused σ) v
        (pause_resume_label σ) (pause_resume_disabled σ) (cancel_label σ)
        (removed σ) (fs σ) (posted σ) (io σ).
Definition set_pause_resume_label (v : string) (σ : state) : state :=
  State (bytes_downloaded σ) (total_size σ) (download_speed σ) (is_paused σ)
        (download_worker σ) v (pause_resume_disabled σ) (cancel_label σ)
        (removed σ) (fs σ) (posted σ) (io σ).
Definition set_pause_resume_disabled (v : bool) (σ : state) : state :=
  State (bytes_downloaded σ) (total_size σ) (download_speed σ) (is_paused σ)
        (download_worker σ) (pause_resume_label σ) v (cancel_label σ)
        (removed σ) (fs σ) (posted σ) (io σ).
Definition set_cancel_label (v : string) (σ : state) : state :=
  State (bytes_downloaded σ) (total_size σ) (download_speed σ) (is_paused σ)
        (download_worker σ) (pause_resume_label σ) (pause_resume_disabled σ) v
        (removed σ) (fs σ) (posted σ) (io σ).
Definition set_removed (v : bool) (σ : state) : state :=
  State (bytes_downloaded σ) (total_size σ) (download_speed σ) (is_paused σ)
        (download_worker σ) (pause_resume_label σ) (pause_resume_disabled σ)
        (cancel_label σ) v (fs σ) (posted σ) (io σ).
Definition set_fs (v : gmap string node) (σ : state) : state :=
  State (bytes_downloaded σ) (total_size σ) (download_speed σ) (is_paused σ)
        (download_worker σ) (pause_resume_label σ) (pause_resume_disabled σ)
        (cancel_label σ) (removed σ) v (posted σ) (io σ).
Definition set_posted (v : list message) (σ : state) : state :=
  State (bytes_downloaded σ) (total_size σ) (download_speed σ) (is_paused σ)
        (download_worker σ) (pause_resume_label σ) (pause_resume_disabled σ)
        (cancel_label σ) (removed σ) (fs σ) v (io σ).
Definition set_io (v : list io_event) (σ : state) : state :=
  State (bytes_downloaded σ) (total_size σ) (download_speed σ) (is_paused σ)
        (download_worker σ) (pause_resume_label σ) (pause_resume_disabled σ)
        (cancel_label σ) (removed σ) (fs σ) (posted σ) v.

(** *** Statements: state passing with exceptions *)

Definition M (A : Type) : Type := state -> result A * state.

#[global] Instance M_ret : MRet M := fun _ a σ => (Ok a, σ).
#[global] Instance M_bind : MBind M := fun _ _ k m σ =>
  match m σ with
  | (Ok a, σ') => k a σ'
  | (Raise e, σ') => (Raise e, σ')
  end.

Definition get : M state := fun σ => (Ok σ, σ).
Definition modify (f : state -> state) : M unit := fun σ => (Ok tt, f σ).
Definition raise {A} (e : exn) : M A := fun σ => (Raise e, σ).
Definition lift {A} (r : result A) : M A := fun σ => (r, σ).

(** [try: m except ... as e: h e] *)
Definition try_except {A} (m : M A) (h : exn -> M A) : M A := fun σ =>
  match m σ with
  | (Raise e, σ') => h e σ'
  | ok => ok
  end.

Definition emit (ev : io_event) : M unit :=
  modify (fun σ => set_io (io σ ++ [ev]) σ).

(** [self.post_message(m)] *)
Definition post_message (m : message) : M unit :=
  modify (fun σ => set_posted (posted σ ++ [m]) σ).

(** [self.remove()] *)
Definition remove_widget : M unit := modify (set_removed true).

(** *** Files *)

Definition is_a_directory : exn := Exn OSError "Is a directory".
Definition no_such_file : exn := Exn OSError "No such file or directory".

(** [os.path.exists(path)] *)
Definition os_path_exists (σ : state) (path : string) : bool :=
  bool_decide (is_Some (fs σ !! path)).

(** [os.remove(path)]: removes a regular file, refuses a directory. *)
Definition os_remove (path : string) : M unit :=
  σ ← get;
  match fs σ !! path with
  | Some (File _) =>
      emit (FileRemove path) ;; modify (fun σ => set_fs (delete path (fs σ)) σ)
  | Some Dir => raise is_a_directory
  | None => raise no_such_file
  end.

(** [open(path, mode)] for the modes ["w"] and ["wb"] (create or
    truncate) and ["ab"] (create or keep). *)
Definition open_file (path mode : string) : M unit :=
  σ ← get;
  match fs σ !! path with
  | Some Dir => raise is_a_directory
  | Some (File _) =>
      emit (FileOpen path mode) ;;
      if String.eqb mode "wb" || String.eqb mode "w"
      then modify (fun σ => set_fs (<[path := File ""]> (fs σ)) σ)
      else mret tt
  | None =>
      emit (FileOpen path mode) ;;
      modify (fun σ => set_fs (<[path := File ""]> (fs σ)) σ)
  end.

Definition append_to (data : string) (n : node) : node :=
  match n with
  | File c => File (c ++ data)
  | Dir => Dir
  end.

(** [f.write(data)] on a file opened at [path]. *)
Definition file_write (path data : string) : M unit :=
  emit (FileWrite path data) ;;
  modify (fun σ => set_fs (alter (append_to data) path (fs σ)) σ).

(** [os.makedirs(path, exist_ok=True)] for a path one level deep. *)
Definition os_makedirs_exist_ok (path : string) : M unit :=
  σ ← get;
  match fs σ !! path with
  | Some Dir => mret tt
  | Some (File _) => raise (Exn OSError "File exists")
  | None => modify (fun σ => set_fs (<[path := Dir]> (fs σ)) σ)
  end.

(** [os.path.join(a, *ps)] and [os.path.basename] on POSIX paths. *)
Definition join2 (a b : string) : string :=
  match b with
  | String "/" _ => b
  | _ =>
      if String.eqb a "" || PyStr.endswith a "/" then a ++ b
      else a ++ "/" ++ b
  end.

Definition os_path_join (a : string) (ps : list string) : string :=
  fold_left join2 ps a.

Fixpoint os_path_basename (p : string) : string :=
  match p with
  | EmptyString => EmptyString
  | String c p' =>
      let b := os_path_basename p' in
      if existsb (Ascii.eqb "/") (list_ascii_of_string p') then b
      else if Ascii.eqb c "/" then p' else p
  end.

(** ** Constants *)

Definition DOWNLOADS_DIR : string := "downloads".
Definition LOG_FILE : string := "download_history.log".

(** ** The network and the clock, as [download_file] sees them *)

(** One turn of [response.aiter_bytes()]: a chunk arrives, and the clock
    reads [now] once it is written; or the wait raises (a network error,
    or [CancelledError] when the worker is cancelled). *)
Inductive body_event :=
  | Chunk (data : string) (now : PyFloat.float)
  | BodyRaises (e : exn).

(** A response: [status_text] is the text of the error that
    [raise_for_status] builds for it. *)
Record response := Response {
  status_code : Z;
  status_text : string;
  content_length : option string;
  body : list body_event
}.

(** [time.monotonic()] at entry, and what [client.stream("GET", ...)]
    gives for a URL and request headers. *)
Record http_env := HttpEnv {
  monotonic0 : PyFloat.float;
  stream : string -> gmap string string -> result response
}.

(** [httpx.Response.raise_for_status]: returns for a 2xx status and
    raises [HTTPStatusError] for every other one. *)
Definition raise_for_status (r : response) : result unit :=
  if (200 <=? status_code r) && (status_code r <=? 299) then Ok tt
  else Raise (Exn HTTPStatusError (status_text r)).

(** The yt-dlp subprocess: what it writes to its two pipes, its exit
    code, and, when the worker is cancelled while the pipes are read,
    after how many lines of stderr. *)
Record process := Process {
  stderr : string;
  stdout : string;
  returncode : Z;
  cancelled_after : option nat
}.

(** [shutil.which("yt-dlp")] and [asyncio.create_subprocess_exec]. *)
Record yt_env := YtEnv {
  which_yt_dlp : bool;
  create_subprocess_exec : list string -> result process
}.

(** The lines of a pipe, each with its newline; [readline] returns them
    one by one and then the empty string. *)
Fixpoint split_lines (s : string) : list string :=
  match s with
  | EmptyString => []
  | String c s' =>
      if Ascii.eqb c "010" then String c EmptyString :: split_lines s'
      else
        match split_lines s' with
        | [] => [String c EmptyString]
        | l :: ls => String c l :: ls
        end
  end.

(** [0.5] *)
Definition half : PyFloat.float := PyFloat.nearest_of_decimal false 5 (-1).

(** ** [DownloadItem] *)

Section DownloadItem.

(** [urlparse(url).path] and [unquote] of [urllib.parse]. *)
Variable urlparse_path : string -> string.
Variable unquote : string -> string.

(** [DownloadItem.__init__(url)] *)
Definition DownloadItem_init (url : string) : item :=
  let is_youtube_dl := bool_decide (is_Some (Re.match_ 3 youtube_re url)) in
  if is_youtube_dl then
    Item url is_youtube_dl "YouTube Video" (os_path_join DOWNLOADS_DIR [])
  else
    let path := urlparse_path url in
    let filename := unquote (os_path_basename path) in
    Item url is_youtube_dl filename (os_path_join DOWNLOADS_DIR [filename]).

(** *** [download_file] *)

(** The two locals that the chunk loop updates. *)
Record locals := Locals { last_update_time : PyFloat.float; last_downloaded : Z }.

(** The body of [async for chunk in response.aiter_bytes()]. *)
Definition chunk_step (self : item) (l : locals) (chunk : string)
    (current_time : PyFloat.float) : M locals :=
  file_write (download_path self) chunk ;;
  modify (fun σ =>
    set_bytes_downloaded (bytes_downloaded σ + len chunk) σ) ;;
  let time_diff := PyFloat.sub current_time (last_update_time l) in
  if PyFloat.ltb half time_diff then
    σ ← get;
    let bytes_diff := bytes_downloaded σ - last_downloaded l in
    speed ← (if PyFloat.ltb PyFloat.zero time_diff
             then x ← lift (PyFloat.int_div bytes_diff time_diff); mret (NumFloat x)
             else mret (NumInt 0));
    modify (set_download_speed speed) ;;
    mret (Locals current_time (bytes_downloaded σ))
  else mret l.

Fixpoint chunk_loop (self : item) (l : locals) (evs : list body_event) : M unit :=
  match evs with
  | [] => mret tt
  | BodyRaises e :: _ => raise e
  | Chunk data now :: evs' =>
      l' ← chunk_step self l data now;
      chunk_loop self l' evs'
  end.

(** The [try] block. *)
Definition download_attempt (self : item) (env : http_env) (url' : string)
    (resume_from : Z) (l : locals) : M unit :=
  let headers : gmap string string :=
    if 0 <? resume_from
    then <["Range" := "bytes=" ++ pretty resume_from ++ "-"]> ∅
    else ∅ in
  let file_mode := if 0 <? resume_from then "ab" else "wb" in
  emit (HttpGet url' headers) ;;
  response ← lift (stream env url' headers);
  (if negb ((status_code response =? 200) || (status_code response =? 206))
   then lift (raise_for_status response)
   else mret tt) ;;
  n ← lift (match content_length response with
            | Some v => int_of_string v
            | None => Ok 0
            end);
  modify (set_total_size n) ;;
  (if 0 <? resume_from
   then modify (fun σ => set_total_size (total_size σ + resume_from) σ)
   else mret tt) ;;
  open_file (download_path self) file_mode ;;
  chunk_loop self l (body response) ;;
  post_message (DownloadSuccess (url self)) ;;
  remove_widget.

(** [download_file(url, resume_from)] *)
Definition download_file (self : item) (env : http_env) (url' : string)
    (resume_from : Z) : M unit :=
  let l := Locals (monotonic0 env) resume_from in
  modify (set_bytes_downloaded resume_from) ;;
  try_except (download_attempt self env url' resume_from l)
    (fun e =>
       match exn_cls e with
       | CancelledError => mret tt
       | _ =>
           post_message (DownloadFailed (url self) (exn_text e)) ;;
           modify (set_pause_resume_disabled true) ;;
           modify (set_cancel_label "Failed")
       end).

(** *** [_parse_yt_dlp_progress] *)

(** What one line of stderr does. *)
Definition progress_line (line : string) : M unit :=
  let line_str := PyStr.strip line in
  match Re.match_ 4 progress_re line_str with
  | Some [Some percent_str; Some total_size_str; Some speed_str; Some eta_str] =>
      b ← lift (p ← PyFloat.of_string percent_str;
                q ← PyFloat.div_int p 100;
                t ← parse_size_to_bytes total_size_str;
                r ← PyFloat.mul_int q t;
                PyFloat.to_int r);
      modify (set_bytes_downloaded b) ;;
      t ← lift (parse_size_to_bytes total_size_str);
      modify (set_total_size t) ;;
      s ← lift (parse_size_to_bytes speed_str);
      modify (set_download_speed (NumInt s)) ;;
      _ ← lift (PyFloat.of_string percent_str);
      mret tt
  | _ => mret tt
  end.

(** The loop over [readline]: returns what is left in the pipe when
    [readline] has returned the empty string. [cancel] counts the lines
    still to be read before the worker is cancelled. *)
Fixpoint _parse_yt_dlp_progress (lines : list string) (cancel : option nat)
    : M (list string) :=
  match cancel with
  | Some O => raise (Exn CancelledError "")
  | _ =>
      match lines with
      | [] => mret []
      | line :: rest =>
          progress_line line ;;
          _parse_yt_dlp_progress rest (Nat.pred <$> cancel)
      end
  end.

(** *** [download_youtube_video] *)

Definition yt_dlp_command (self : item) : list string :=
  ["yt-dlp"; "--progress"; "--newline"; "--output";
   os_path_join DOWNLOADS_DIR ["%(title)s.%(ext)s"];
   "--restrict-filenames"; url self].

(** From the two readers to the final message. *)
Definition yt_dlp_run (self : item) (p : process) : M unit :=
  remaining ← _parse_yt_dlp_progress (split_lines (stderr p)) (cancelled_after p);
  if returncode p =? 0 then
    post_message (DownloadSuccess (url self)) ;;
    remove_widget
  else
    let remaining_stderr := PyStr.strip (String.concat "" remaining) in
    let error_message :=
      if String.eqb remaining_stderr "" then "Unknown yt-dlp error."
      else remaining_stderr in
    post_message (DownloadFailed (url self) ("yt-dlp failed: " ++ error_message)).

Definition download_youtube_video (self : item) (env : yt_env) : M unit :=
  if negb (which_yt_dlp env) then
    post_message (DownloadFailed (url self) "yt-dlp not found.")
  else
    let failed (e : exn) : M unit :=
      post_message
        (DownloadFailed (url self) ("yt-dlp execution error: " ++ exn_text e)) in
    emit (Spawn (yt_dlp_command self)) ;;
    match create_subprocess_exec env (yt_dlp_command self) with
    | Raise e =>
        match exn_cls e with
        | CancelledError =>
            (* the handler reads [process], which was never assigned *)
            raise (Exn UnboundLocalError
                     "cannot access local variable 'process' where it is not associated with a value")
        | _ => failed e
        end
    | Ok p =>
        try_except (yt_dlp_run self p)
          (fun e =>
             match exn_cls e with
             | CancelledError => emit Terminate   (* terminate(), then wait() *)
             | _ => failed e
             end)
    end.

(** *** [start_download] and the buttons *)

(** The coroutine that [start_download] hands to [run_worker]. *)
Definition do_download (self : item) (henv : http_env) (yenv : yt_env)
    (resume_from : Z) : M unit :=
  if is_youtube_dl self then download_youtube_video self yenv
  else download_file self henv (url self) resume_from.

(** [start_download(resume_from)] *)
Definition start_download (self : item) (resume_from : Z) : M unit :=
  modify (set_is_paused false) ;;
  modify (set_download_worker (Some (Worker resume_from false))).

(** [self.download_worker.cancel()] when there is a worker. *)
Definition with_worker_cancelled (σ : state) : state :=
  match download_worker σ with
  | Some w => set_download_worker (Some (Worker (w_resume_from w) true)) σ
  | None => σ
  end.

Definition cancel_worker : M unit := modify with_worker_cancelled.

(** [on_button_pressed(event)], by the id of the button. *)
Definition on_button_pressed (self : item) (button_id : string) : M unit :=
  if String.eqb button_id "pause-resume" then
    σ ← get;
    if is_paused σ then
      modify (set_pause_resume_label "Pause") ;;
      start_download self (bytes_downloaded σ)
    else
      modify (set_is_paused true) ;;
      modify (set_pause_resume_label "Resume") ;;
      cancel_worker
  else if String.eqb button_id "cancel" then
    cancel_worker ;;
    σ ← get;
    (if os_path_exists σ (download_path self)
     then os_remove (download_path self)
     else mret tt) ;;
    post_message (DownloadCancelled (url self)) ;;
    remove_widget
  else mret tt.

End DownloadItem.

(** ** Reference definitions for the comparisons below *)

(** [needle in hay] for strings. *)
Fixpoint str_contains (needle hay : string) : bool :=
  String.prefix needle hay ||
  match hay with
  | EmptyString => false
  | String _ hay' => str_contains needle hay'
  end.

(** Python's one-argument [round] on a float: the nearest integer, a tie
    going to the even one. *)
Definition round_half_even (x : PyFloat.float) : result Z :=
  match x with
  | S754_finite s m e =>
      if 0 <=? e then Ok (cond_Zopp s (Z.shiftl (Zpos m) e))
      else
        let q := Z.shiftr (Zpos m) (- e) in
        let r := Zpos m - Z.shiftl q (- e) in
        let h := Z.shiftl 1 (- e - 1) in
        let q' :=
          match r ?= h with
          | Lt => q
          | Gt => q + 1
          | Eq => if Z.even q then q else q + 1
          end in
        Ok (cond_Zopp s q')
  | other => PyFloat.to_int other
  end.

(** The progress formula as the specification words it:
    [round(percent / 100 * totalSize)]. *)
Definition spec_bytes_downloaded (percent_str total_size_str : string) : result Z :=
  p ← PyFloat.of_string percent_str;
  q ← PyFloat.div_int p 100;
  t ← parse_size_to_bytes total_size_str;
  r ← PyFloat.mul_int q t;
  round_half_even r.

(** The progress formula of the source: the same product, through [int]. *)
Definition int_bytes_downloaded (percent_str total_size_str : string) : result Z :=
  p ← PyFloat.of_string percent_str;
  q ← PyFloat.div_int p 100;
  t ← parse_size_to_bytes total_size_str;
  r ← PyFloat.mul_int q t;
  PyFloat.to_int r.

(** A fresh item: nothing downloaded, both buttons as [compose] makes
    them, and a given file system. *)
Definition fresh (files : gmap string node) : state :=
  State 0 0 (NumFloat PyFloat.zero) false None "Pause" false "Cancel" false files [] [].

Definition newline : string := String "010" EmptyString.

(** ** [DownloadManagerApp] *)

(** [DownloadManagerApp.on_mount], up to the log viewer: the downloads
    directory and the history file are made. *)
Definition app_on_mount : M unit :=
  os_makedirs_exist_ok DOWNLOADS_DIR ;;
  σ ← get;
  if negb (os_path_exists σ LOG_FILE) then
    open_file LOG_FILE "w" ;;
    file_write LOG_FILE ("--- Download History ---" ++ String "010" EmptyString)
  else mret tt.

(** ** Sample items and worlds *)

(** The file system once the application is mounted and nothing has been
    downloaded. *)
Definition downloads_only : gmap string node := {[ DOWNLOADS_DIR := Dir ]}.

Definition video_url : string := "https://www.youtube.com/watch?v=abc".
Definition video_item : item := DownloadItem_init id id video_url.

Definition file_url : string := "http://example.com/a.bin".
Definition file_item : item := Item file_url false "a.bin" "downloads/a.bin".

(** yt-dlp is installed and the subprocess behaves as [p]. *)
Definition yt_dlp_gives (p : process) : yt_env := YtEnv true (fun _ => Ok p).

(** The server answers every request with [r]; the clock reads 0 at
    entry. *)
Definition server_gives (r : response) : http_env :=
  HttpEnv PyFloat.zero (fun _ _ => Ok r).

(** Clock readings in whole seconds. *)
Definition seconds (n : Z) : PyFloat.float := PyFloat.nearest_of_Z n.

(** The bytes that a sequence of events writes. *)
Fixpoint written (evs : list io_event) : string :=
  match evs with
  | [] => ""
  | FileWrite _ data :: evs' => data ++ written evs'
  | _ :: evs' => written evs'
  end.

(** The [headers] dictionary and the [file_mode] of [download_file]. *)
Definition range_headers (resume_from : Z) : gmap string string :=
  if 0 <? resume_from
  then <["Range" := "bytes=" ++ pretty resume_from ++ "-"]> ∅
  else ∅.

Definition file_mode (resume_from : Z) : string :=
  if 0 <? resume_from then "ab" else "wb".

(** What an existing file holds when it is opened with [mode]. *)
Definition kept_content (mode : string) (n : option node) : string :=
  match n with
  | Some (File c) => if String.eqb mode "ab" then c else ""
  | _ => ""
  end.

(** [int(response.headers.get("content-length", 0))] *)
Definition content_length_int (r : response) : result Z :=
  match content_length r with
  | Some v => int_of_string v
  | None => Ok 0
  end.

(** The states that the chunk loop can be in, from the locals and the
    state it is entered with. *)
Inductive loop_reach (self : item) (l0 : locals) (σ0 : state)
    : locals -> state -> Prop :=
  | reach_entry : loop_reach self l0 σ0 l0 σ0
  | reach_step l σ chunk now l' σ' :
      loop_reach self l0 σ0 l σ ->
      chunk_step self l chunk now σ = (Ok l', σ') ->
      loop_reach self l0 σ0 l' σ'.

(** A progress line of yt-dlp as it arrives on the pipe. *)
Definition progress_50_5 : string :=
  "[download]  50.5% of 3B at 1B/s ETA 00:01" ++ newline.

(** ** Relations between the state before and after *)

(** [preserves R m]: every run of the statement [m] relates the state it
    starts in to the state it ends in, whether it returns or raises. *)
Definition preserves {A} (R : state -> state -> Prop) (m : M A) : Prop :=
  forall σ, R σ (snd (m σ)).

(** No path of the file system disappears. *)
Definition keeps_paths (σ σ' : state) : Prop :=
  forall path, is_Some (fs σ !! path) -> is_Some (fs σ' !! path).

(** ** Predicates on binary floats *)

(** [below b F mrs e]: with every value scaled by [2^-b], the mantissa of
    [mrs] at exponent [e] is at most [F], and strictly less when [mrs]
    stands for a number that is not exactly that mantissa. *)
Definition below (b F : Z) (mrs : shr_record) (e : Z) : Prop :=
  b <= e /\ 0 <= shr_m mrs /\
  shr_m mrs * 2 ^ (e - b) <= F /\
  (loc_of_shr_record mrs <> loc_Exact -> shr_m mrs * 2 ^ (e - b) < F).

(** [rounded prec emax s x]: [x] has sign [s], is not a NaN, and is
    bounded when finite. *)
Definition rounded (prec emax : Z) (s : bool) (x : spec_float) : Prop :=
  match x with
  | S754_zero s' | S754_infinity s' => s' = s
  | S754_finite s' m' e' => s' = s /\ bounded prec emax m' e' = true
  | S754_nan => False
  end.

Definition valid (prec emax : Z) (x : spec_float) : Prop :=
  valid_binary prec emax x = true.

(** [bytes_downloaded] does not decrease. *)
Definition grows (σ σ' : state) : Prop :=
  bytes_downloaded σ <= bytes_downloaded σ'.

(** Two progress lines of yt-dlp, the second for the next stream of the
    same video. *)
Definition progress_90 : string :=
  "[download]  90.0% of 900.00B at 100.00B/s ETA 00:01" ++ newline.
Definition progress_10 : string :=
  "[download]  10.0% of 500.00B at 100.00B/s ETA 00:04" ++ newline.

(** What [download_speed] holds when it is a float. *)
Definition speed_float (σ : state) : option PyFloat.float :=
  match download_speed σ with
  | NumFloat x => Some x
  | NumInt _ => None
  end.

(** The file system while [a.bin] is partly downloaded. *)
Definition partial_download : gmap string node :=
  <["downloads/a.bin" := File "0123"]> downloads_only.

(** [download_speed] is what it was at [s0], or a float that is a number
    and not negative. *)
Definition speed_ok (s0 : pynum) (σ : state) : Prop :=
  download_speed σ = s0 \/
  exists v, download_speed σ = NumFloat v /\
            PyFloat.ltb v PyFloat.zero = false /\ v <> S754_nan.

(** The invariant of one run of [download_file]: [speed_ok], and
    [bytes_downloaded] not below the offset. *)
Definition run_inv (s0 : pynum) (resume_from : Z) (σ : state) : Prop :=
  speed_ok s0 σ /\ resume_from <= bytes_downloaded σ.

(** [keeps_inv I]: the invariant [I], when it holds before, holds after. *)
Definition keeps_inv (I : state -> Prop) (σ σ' : state) : Prop := I σ -> I σ'.

(** * Properties *)

(** ** [parse_size_to_bytes] *)

(** C1: of the four example inputs, ["N/A"], [""] and ["500"] give 0, 0
    and 500; ["12.34MiB"] gives 0 and not 12.34 * 1024^2 truncated
    (12939427, which is what ["12.34M"] and ["12.34MB"] give): after the
    final B is dropped the string ends in I, no unit is recognised, and
    the whole of ["12.34MI"] is not a number. *)
Theorem parse_size_to_bytes_examples :
  parse_size_to_bytes "12.34MiB" = Ok 0 /\
  parse_size_to_bytes "12.34MB" = Ok 12939427 /\
  parse_size_to_bytes "12.34M" = Ok 12939427 /\
  parse_size_to_bytes "N/A" = Ok 0 /\
  parse_size_to_bytes "" = Ok 0 /\
  parse_size_to_bytes "500" = Ok 500.
Proof. repeat split; vm_compute; reflexivity. Qed.

(** C6: ["abc"] gives 0, but the function does raise: behind a K, M or G
    the number is read outside the [try], so ["abcK"] raises
    [ValueError]; and [except ValueError] does not catch the
    [OverflowError] of [int(float("inf"))]. *)
Theorem parse_size_to_bytes_raises :
  parse_size_to_bytes "abc" = Ok 0 /\
  parse_size_to_bytes "abcK" = Raise PyFloat.could_not_convert /\
  parse_size_to_bytes "K" = Raise PyFloat.could_not_convert /\
  (exists e, parse_size_to_bytes "inf" = Raise e /\ exn_cls e = OverflowError).
Proof.
  repeat split; try (vm_compute; reflexivity).
  eexists; split; vm_compute; reflexivity.
Qed.

(** ** The yt-dlp strategy: exit codes *)

(** The loop of [_parse_yt_dlp_progress] leaves only when [readline] has
    returned the empty string: nothing is left in the pipe behind it. *)
Lemma parse_yt_dlp_progress_drains lines σ r σ' :
  _parse_yt_dlp_progress lines None σ = (Ok r, σ') -> r = [].
Proof.
  revert σ; induction lines as [|line rest IH]; intros σ H; cbn in H.
  - injection H as <- _; reflexivity.
  - unfold mbind, M_bind in H.
    destruct (progress_line line σ) as [[[]|e] σ1]; [|discriminate].
    eapply IH, H.
Qed.

(** Whatever yt-dlp wrote to stderr, a nonzero exit code is reported with
    the fallback text. *)
Lemma yt_dlp_run_nonzero_exit self p σ σ' :
  cancelled_after p = None -> returncode p <> 0 ->
  yt_dlp_run self p σ = (Ok tt, σ') ->
  exists σ1, _parse_yt_dlp_progress (split_lines (stderr p)) None σ = (Ok [], σ1) /\
    posted σ' = (posted σ1 ++
      [DownloadFailed (url self) "yt-dlp failed: Unknown yt-dlp error."])%list.
Proof.
  intros Hc Hrc H; unfold yt_dlp_run, mbind, M_bind in H; rewrite Hc in H.
  destruct (_parse_yt_dlp_progress _ None σ) as [[r|e] σ1] eqn:E; [|discriminate].
  pose proof (parse_yt_dlp_progress_drains _ _ _ _ E) as ->.
  apply Z.eqb_neq in Hrc; rewrite Hrc in H; cbn in H.
  injection H as <-; exists σ1; split; reflexivity.
Qed.

(** C4: exit code 0 posts [DownloadSuccess]; exit code 1 posts
    [DownloadFailed], but with stderr holding "ERROR: Video unavailable"
    the message is the fallback text and does not contain "Video
    unavailable": the progress loop has read the pipe to its end before
    [process.stderr.read()] looks for what remains. *)
Theorem yt_dlp_exit_code_message :
  let out := "ERROR: Video unavailable" ++ newline in
  let ok := download_youtube_video video_item
              (yt_dlp_gives (Process out "" 0 None)) (fresh downloads_only) in
  let ko := download_youtube_video video_item
              (yt_dlp_gives (Process out "" 1 None)) (fresh downloads_only) in
  posted (snd ok) = [DownloadSuccess video_url] /\
  posted (snd ko) =
    [DownloadFailed video_url "yt-dlp failed: Unknown yt-dlp error."] /\
  str_contains "Video unavailable" "yt-dlp failed: Unknown yt-dlp error." = false.
Proof. repeat split; vm_compute; reflexivity. Qed.

(** ** The HTTP strategy: status codes *)

(** C5: 200 and 206 start a transfer and 404 fails it before any file is
    opened, but a 203 answer (any 2xx) is streamed to the file and
    reported as a success: for a status other than 200 and 206 the source
    relies on [raise_for_status], which raises outside 2xx only. *)
Theorem download_file_status_203 :
  let answer code := Response code "status error" (Some "5") [Chunk "hello" (seconds 1)] in
  let run code := snd (download_file file_item (server_gives (answer code))
                         file_url 0 (fresh downloads_only)) in
  posted (run 200) = [DownloadSuccess file_url] /\
  posted (run 206) = [DownloadSuccess file_url] /\
  (posted (run 404) = [DownloadFailed file_url "status error"] /\
   io (run 404) = [HttpGet file_url ∅] /\
   fs (run 404) !! "downloads/a.bin" = None) /\
  (posted (run 203) = [DownloadSuccess file_url] /\
   io (run 203) = [HttpGet file_url ∅; FileOpen "downloads/a.bin" "wb";
                   FileWrite "downloads/a.bin" "hello"] /\
   fs (run 203) !! "downloads/a.bin" = Some (File "hello") /\
   bytes_downloaded (run 203) = 5).
Proof. repeat split; vm_compute; reflexivity. Qed.

(** ** Reasoning about statements *)

(** Unfolds the plumbing of [M]. *)
Ltac unfold_M :=
  unfold emit, post_message, remove_widget, cancel_worker in *;
  unfold mbind, M_bind, mret, M_ret, get, modify, raise, lift, try_except in *.

(** Case analysis on the condition of the first [if] of the goal. *)
Ltac break_if :=
  match goal with
  | |- context [if ?b then _ else _] => destruct b eqn:?
  end.

(** A reflexive and transitive relation that every step of a statement
    keeps is kept by the statement. *)
Section Preserves.
Variable R : state -> state -> Prop.
Hypothesis R_refl : forall σ, R σ σ.
Hypothesis R_trans : forall σ1 σ2 σ3, R σ1 σ2 -> R σ2 σ3 -> R σ1 σ3.

Lemma preserves_ret {A} (a : A) : preserves R (mret a).
Proof. intros σ; apply R_refl. Qed.

Lemma preserves_get : preserves R get.
Proof. intros σ; apply R_refl. Qed.

Lemma preserves_raise {A} e : preserves R (@raise A e).
Proof. intros σ; apply R_refl. Qed.

Lemma preserves_lift {A} (r : result A) : preserves R (lift r).
Proof. intros σ; apply R_refl. Qed.

Lemma preserves_modify f : (forall σ, R σ (f σ)) -> preserves R (modify f).
Proof. intros H σ; apply H. Qed.

Lemma preserves_bind {A B} (m : M A) (k : A -> M B) :
  preserves R m -> (forall a, preserves R (k a)) -> preserves R (m ≫= k).
Proof.
  intros Hm Hk σ; unfold mbind, M_bind.
  specialize (Hm σ); destruct (m σ) as [[a|e] σ1]; cbn in *; [|exact Hm].
  eapply R_trans; [exact Hm | apply Hk].
Qed.

Lemma preserves_try {A} (m : M A) (h : exn -> M A) :
  preserves R m -> (forall e, preserves R (h e)) -> preserves R (try_except m h).
Proof.
  intros Hm Hh σ; unfold try_except.
  specialize (Hm σ); destruct (m σ) as [[a|e] σ1]; cbn in *; [exact Hm|].
  eapply R_trans; [exact Hm | apply Hh].
Qed.

Lemma preserves_if {A} (b : bool) (m1 m2 : M A) :
  preserves R m1 -> preserves R m2 -> preserves R (if b then m1 else m2).
Proof. destruct b; auto. Qed.
End Preserves.

Lemma keeps_paths_refl σ : keeps_paths σ σ.
Proof. intros path H; exact H. Qed.

Lemma keeps_paths_trans σ1 σ2 σ3 :
  keeps_paths σ1 σ2 -> keeps_paths σ2 σ3 -> keeps_paths σ1 σ3.
Proof. intros H1 H2 path H; auto. Qed.

Lemma keeps_paths_same_fs σ σ' : fs σ' = fs σ -> keeps_paths σ σ'.
Proof. intros E path H; rewrite E; exact H. Qed.

Lemma keeps_paths_insert σ path n :
  keeps_paths σ (set_fs (<[path := n]> (fs σ)) σ).
Proof.
  intros q H; cbn. destruct (decide (path = q)) as [->|Hne].
  - rewrite lookup_insert_eq; eauto.
  - rewrite lookup_insert_ne by done; exact H.
Qed.

Lemma keeps_paths_alter σ path f :
  keeps_paths σ (set_fs (alter f path (fs σ)) σ).
Proof.
  intros q H; cbn. destruct (decide (path = q)) as [->|Hne].
  - rewrite lookup_alter_eq. destruct H as [x ->]; cbn; eauto.
  - rewrite lookup_alter_ne by done; exact H.
Qed.

Create HintDb keeps.
#[local] Hint Resolve keeps_paths_refl keeps_paths_insert keeps_paths_alter : keeps.
#[local] Hint Extern 1 (keeps_paths _ _) =>
  (apply keeps_paths_same_fs; reflexivity) : keeps.

(** Breaks a statement into its steps, for a relation with the given
    reflexivity and transitivity proofs, and settles each with [keeps]. *)
Ltac preserves_step Hrefl Htrans :=
  lazymatch goal with
  | |- preserves _ (mbind _ _) =>
      apply preserves_bind; [exact Htrans | | intros ?]
  | |- preserves _ (try_except _ _) =>
      apply preserves_try; [exact Htrans | | intros ?]
  | |- preserves _ (if _ then _ else _) => apply preserves_if
  | |- preserves _ (mret _) => apply preserves_ret; exact Hrefl
  | |- preserves _ get => apply preserves_get; exact Hrefl
  | |- preserves _ (raise _) => apply preserves_raise; exact Hrefl
  | |- preserves _ (lift _) => apply preserves_lift; exact Hrefl
  | |- preserves _ (modify _) =>
      apply preserves_modify; intros ?; solve [auto with keeps]
  | |- preserves _ (emit _) => unfold emit
  | |- preserves _ (post_message _) => unfold post_message
  | |- preserves _ remove_widget => unfold remove_widget
  | |- preserves _ cancel_worker => unfold cancel_worker
  | |- preserves _ _ => solve [auto with keeps]
  end.
Ltac keeps_tac := repeat preserves_step keeps_paths_refl keeps_paths_trans.

Lemma open_file_keeps path mode : preserves keeps_paths (open_file path mode).
Proof.
  unfold open_file; keeps_tac.
  destruct (fs _ !! path) as [[c|]|]; keeps_tac.
Qed.

Lemma file_write_keeps path data : preserves keeps_paths (file_write path data).
Proof. unfold file_write; keeps_tac. Qed.

#[local] Hint Resolve open_file_keeps file_write_keeps : keeps.

Lemma chunk_step_keeps self l chunk now :
  preserves keeps_paths (chunk_step self l chunk now).
Proof. unfold chunk_step; keeps_tac. Qed.

#[local] Hint Resolve chunk_step_keeps : keeps.

Lemma chunk_loop_keeps self l evs : preserves keeps_paths (chunk_loop self l evs).
Proof.
  revert l; induction evs as [|[data now|e] evs IH]; intros l; cbn; keeps_tac.
Qed.

#[local] Hint Resolve chunk_loop_keeps : keeps.

Lemma download_file_keeps self env u resume_from :
  preserves keeps_paths (download_file self env u resume_from).
Proof.
  unfold download_file, download_attempt; keeps_tac.
  destruct (exn_cls _); keeps_tac.
Qed.

Lemma progress_line_keeps line : preserves keeps_paths (progress_line line).
Proof.
  unfold progress_line.
  destruct (Re.match_ 4 progress_re _) as [[|[a|] [|[b|] [|[c|] [|[d|] [|]]]]]|];
    keeps_tac.
Qed.

#[local] Hint Resolve progress_line_keeps : keeps.

Lemma parse_yt_dlp_progress_keeps lines cancel :
  preserves keeps_paths (_parse_yt_dlp_progress lines cancel).
Proof.
  revert cancel; induction lines as [|line rest IH]; intros [[|n]|]; cbn; keeps_tac.
Qed.

#[local] Hint Resolve parse_yt_dlp_progress_keeps : keeps.

Lemma download_youtube_video_keeps self env :
  preserves keeps_paths (download_youtube_video self env).
Proof.
  unfold download_youtube_video; keeps_tac.
  destruct (create_subprocess_exec _ _); keeps_tac.
  - unfold yt_dlp_run; keeps_tac.
  - destruct (exn_cls _); keeps_tac.
  - destruct (exn_cls _); keeps_tac.
Qed.

Lemma do_download_keeps self henv yenv resume_from :
  preserves keeps_paths (do_download self henv yenv resume_from).
Proof.
  unfold do_download; destruct (is_youtube_dl self).
  - apply download_youtube_video_keeps.
  - apply download_file_keeps.
Qed.

(** ** The buttons *)

Lemma with_worker_cancelled_frame σ :
  fs (with_worker_cancelled σ) = fs σ /\
  posted (with_worker_cancelled σ) = posted σ /\
  removed (with_worker_cancelled σ) = removed σ /\
  io (with_worker_cancelled σ) = io σ /\
  bytes_downloaded (with_worker_cancelled σ) = bytes_downloaded σ /\
  is_paused (with_worker_cancelled σ) = is_paused σ /\
  download_worker (with_worker_cancelled σ) =
    (fun w => Worker (w_resume_from w) true) <$> download_worker σ.
Proof.
  unfold with_worker_cancelled; destruct (download_worker σ) eqn:E; cbn;
    rewrite ?E; repeat split; reflexivity.
Qed.

(** The first press of the pause button, and the press that follows. *)
Lemma pause_press self σ :
  is_paused σ = false ->
  on_button_pressed self "pause-resume" σ =
    (Ok tt, with_worker_cancelled
              (set_pause_resume_label "Resume" (set_is_paused true σ))).
Proof.
  intros Hp; unfold on_button_pressed; cbn; unfold_M; cbn; rewrite Hp; reflexivity.
Qed.

Lemma resume_press self σ :
  is_paused σ = true ->
  on_button_pressed self "pause-resume" σ =
    (Ok tt, set_download_worker (Some (Worker (bytes_downloaded σ) false))
              (set_is_paused false (set_pause_resume_label "Pause" σ))).
Proof.
  intros Hp; unfold on_button_pressed, start_download; cbn; unfold_M; cbn.
  rewrite Hp; reflexivity.
Qed.

(** Cancel, by what [download_path] names. *)
Lemma cancel_press self σ :
  on_button_pressed self "cancel" σ =
    let σ1 := with_worker_cancelled σ in
    match fs σ !! download_path self with
    | Some (File _) =>
        (Ok tt, set_removed true
                  (set_posted (posted σ1 ++ [DownloadCancelled (url self)])
                     (set_fs (delete (download_path self) (fs σ1))
                        (set_io (io σ1 ++ [FileRemove (download_path self)]) σ1))))
    | Some Dir => (Raise is_a_directory, σ1)
    | None =>
        (Ok tt, set_removed true
                  (set_posted (posted σ1 ++ [DownloadCancelled (url self)]) σ1))
    end.
Proof.
  unfold on_button_pressed, os_remove, os_path_exists; cbn; unfold_M; cbn.
  destruct (with_worker_cancelled_frame σ) as (Hfs & _).
  rewrite Hfs.
  destruct (fs σ !! download_path self) as [[c|]|] eqn:E; cbn.
  all: rewrite ?Hfs, ?E; cbn; rewrite ?Hfs; reflexivity.
Qed.

(** C9: Cancel removes the destination file when [download_path] names a
    regular file, and nothing else; it posts [DownloadCancelled] and
    removes the widget. Pause and resume leave the file system alone:
    Pause cancels the worker and keeps [bytes_downloaded], which the next
    press hands to [start_download] as the offset. No run of either
    strategy makes a path disappear. *)
Theorem cancel_is_the_only_deletion self σ :
  (forall c, fs σ !! download_path self = Some (File c) ->
     exists σ', on_button_pressed self "cancel" σ = (Ok tt, σ') /\
       fs σ' = delete (download_path self) (fs σ) /\
       posted σ' = (posted σ ++ [DownloadCancelled (url self)])%list /\
       removed σ' = true) /\
  (fs σ !! download_path self = None ->
     exists σ', on_button_pressed self "cancel" σ = (Ok tt, σ') /\ fs σ' = fs σ) /\
  (exists σ1, on_button_pressed self "pause-resume" σ = (Ok tt, σ1) /\
     fs σ1 = fs σ /\
     bytes_downloaded σ1 = bytes_downloaded σ /\
     (is_paused σ = false ->
        is_paused σ1 = true /\
        download_worker σ1 =
          (fun w => Worker (w_resume_from w) true) <$> download_worker σ /\
        exists σ2, on_button_pressed self "pause-resume" σ1 = (Ok tt, σ2) /\
          fs σ2 = fs σ /\
          is_paused σ2 = false /\
          download_worker σ2 = Some (Worker (bytes_downloaded σ) false))) /\
  (forall henv yenv resume_from path,
     is_Some (fs σ !! path) ->
     is_Some (fs (snd (do_download self henv yenv resume_from σ)) !! path)).
Proof.
  split; [|split; [|split]].
  - intros c Hc. rewrite cancel_press, Hc; cbn.
    destruct (with_worker_cancelled_frame σ) as (Hfs & Hpo & _).
    eexists; split; [reflexivity|]; cbn. rewrite Hfs, Hpo; auto.
  - intros Hn. rewrite cancel_press, Hn; cbn.
    destruct (with_worker_cancelled_frame σ) as (Hfs & _).
    eexists; split; [reflexivity|]; cbn. exact Hfs.
  - destruct (is_paused σ) eqn:Hp.
    + rewrite resume_press by exact Hp.
      eexists; split; [reflexivity|]; cbn. repeat split; discriminate.
    + rewrite pause_press by exact Hp.
      set (σp := set_pause_resume_label "Resume" (set_is_paused true σ)).
      destruct (with_worker_cancelled_frame σp) as (Hfs & _ & _ & _ & Hb & Hip & Hw).
      eexists; split; [reflexivity|].
      split; [exact Hfs|]. split; [exact Hb|]. intros _.
      split; [exact Hip|]. split; [exact Hw|].
      rewrite resume_press by exact Hip.
      eexists; split; [reflexivity|]; cbn. rewrite Hfs, Hb; auto.
  - intros henv yenv resume_from path H.
    exact (do_download_keeps self henv yenv resume_from σ path H).
Qed.

(** What [on_mount] leaves behind is never less than what it made. *)
Lemma app_on_mount_makes_directory σ0 σ :
  app_on_mount σ0 = (Ok tt, σ) -> fs σ !! DOWNLOADS_DIR = Some Dir.
Proof.
  unfold app_on_mount, os_makedirs_exist_ok, open_file, file_write, os_path_exists.
  unfold_M; cbn.
  destruct (fs σ0 !! DOWNLOADS_DIR) as [[c|]|] eqn:E; cbn; [discriminate| |].
  - destruct (bool_decide _); cbn.
    + intros [= <-]; exact E.
    + destruct (fs σ0 !! LOG_FILE) as [[c|]|]; cbn; [| discriminate |];
        intros [= <-]; cbn;
        rewrite lookup_alter_ne, lookup_insert_ne by discriminate; exact E.
  - destruct (bool_decide _); cbn.
    + intros [= <-]; cbn. apply lookup_insert_eq.
    + rewrite lookup_insert_ne by discriminate.
      destruct (fs σ0 !! LOG_FILE) as [[c|]|]; cbn; [| discriminate |];
        intros [= <-]; cbn;
        rewrite lookup_alter_ne, lookup_insert_ne by discriminate;
        apply lookup_insert_eq.
Qed.

(** C10: an item whose URL matches the video pattern has the downloads
    directory itself as [download_path]. That directory exists once the
    application is mounted, so Cancel calls [os.remove] on it, which
    raises: nothing is removed, no [DownloadCancelled] is posted and the
    widget stays. Whatever the file system holds, Cancel on such an item
    touches no path other than the directory's own, so never the file
    yt-dlp writes under it. *)
Theorem youtube_cancel_removes_directory urlparse_path unquote url :
  is_Some (Re.match_ 3 youtube_re url) ->
  let self := DownloadItem_init urlparse_path unquote url in
  is_youtube_dl self = true /\
  download_path self = DOWNLOADS_DIR /\
  (forall σ0 σ, app_on_mount σ0 = (Ok tt, σ) -> fs σ !! DOWNLOADS_DIR = Some Dir) /\
  (forall σ, fs σ !! DOWNLOADS_DIR = Some Dir ->
     exists σ', on_button_pressed self "cancel" σ = (Raise is_a_directory, σ') /\
       fs σ' = fs σ /\ posted σ' = posted σ /\ removed σ' = removed σ /\
       io σ' = io σ) /\
  (forall σ path, path <> DOWNLOADS_DIR ->
     fs (snd (on_button_pressed self "cancel" σ)) !! path = fs σ !! path).
Proof.
  intros Hm self.
  assert (Hself : self = Item url true "YouTube Video" DOWNLOADS_DIR).
  { subst self; unfold DownloadItem_init.
    rewrite bool_decide_eq_true_2 by exact Hm. reflexivity. }
  rewrite Hself; cbn [is_youtube_dl download_path].
  split; [reflexivity|]. split; [reflexivity|]. split; [|split].
  - exact app_on_mount_makes_directory.
  - intros σ Hd. rewrite cancel_press; cbn [download_path]. rewrite Hd; cbn.
    destruct (with_worker_cancelled_frame σ) as (Hfs & Hpo & Hre & Hio & _).
    eexists; split; [reflexivity|]. auto.
  - intros σ path Hne. rewrite cancel_press; cbn [download_path].
    destruct (with_worker_cancelled_frame σ) as (Hfs & _).
    destruct (fs σ !! DOWNLOADS_DIR) as [[c|]|]; cbn; rewrite ?Hfs; auto.
    rewrite lookup_delete_ne by done. reflexivity.
Qed.

(** ** The HTTP strategy: resuming *)

Lemma str_app_cons x (a b : string) : String x a ++ b = String x (a ++ b).
Proof. reflexivity. Qed.

Lemma str_app_nil_l (a : string) : "" ++ a = a.
Proof. reflexivity. Qed.

Lemma str_app_assoc (a b c : string) : (a ++ b) ++ c = a ++ (b ++ c).
Proof.
  induction a as [|x a IH]; [reflexivity|]. rewrite !str_app_cons; congruence.
Qed.

Lemma str_app_nil_r (a : string) : a ++ "" = a.
Proof.
  induction a as [|x a IH]; [reflexivity|]. rewrite str_app_cons; congruence.
Qed.

Lemma len_app (a b : string) : len (a ++ b) = len a + len b.
Proof.
  unfold len; induction a as [|x a IH]; [reflexivity|].
  rewrite str_app_cons; cbn [String.length]; lia.
Qed.

Lemma written_app (a b : list io_event) :
  written (a ++ b) = written a ++ written b.
Proof.
  induction a as [|[] a IH]; cbn; rewrite ?IH, ?str_app_assoc; reflexivity.
Qed.

(** One turn of the loop always writes the chunk and counts it, whether
    or not the speed is then sampled. *)
Lemma chunk_step_effect self l chunk now σ :
  let '(r, σ') := chunk_step self l chunk now σ in
  io σ' = (io σ ++ [FileWrite (download_path self) chunk])%list /\
  fs σ' = alter (append_to chunk) (download_path self) (fs σ) /\
  bytes_downloaded σ' = bytes_downloaded σ + len chunk /\
  total_size σ' = total_size σ /\
  posted σ' = posted σ.
Proof.
  unfold chunk_step, file_write; unfold_M; cbn.
  repeat (break_if; cbn); try (repeat split; reflexivity).
  destruct (PyFloat.int_div _ _); cbn; repeat split; reflexivity.
Qed.

Lemma chunk_loop_effect self evs : forall l σ,
  let '(r, σ') := chunk_loop self l evs σ in
  exists ws,
    io σ' = (io σ ++ ws)%list /\
    fs σ' !! download_path self =
      append_to (written ws) <$> (fs σ !! download_path self) /\
    bytes_downloaded σ' = bytes_downloaded σ + len (written ws) /\
    total_size σ' = total_size σ /\
    posted σ' = posted σ.
Proof.
  induction evs as [|[data now|e] evs IH]; intros l σ; cbn.
  - exists []; cbn. rewrite app_nil_r. repeat split; try reflexivity; [|unfold len; cbn; lia].
    destruct (fs σ !! download_path self) as [[c|]|]; cbn; rewrite ?str_app_nil_r; reflexivity.
  - unfold mbind, M_bind.
    pose proof (chunk_step_effect self l data now σ) as Hs.
    destruct (chunk_step self l data now σ) as [[l'|e] σ1].
    + destruct Hs as (Hio & Hfs & Hb & Ht & Hp).
      specialize (IH l' σ1). destruct (chunk_loop self l' evs σ1) as [r σ'].
      destruct IH as (ws & Hio' & Hfs' & Hb' & Ht' & Hp').
      exists (FileWrite (download_path self) data :: ws); cbn [written].
      rewrite Hio', Hio, <- app_assoc. split; [reflexivity|].
      rewrite Hfs', Hfs, lookup_alter_eq, Hb', Hb, len_app, Ht', Ht, Hp', Hp.
      repeat split; try reflexivity; [|lia].
      destruct (fs σ !! download_path self) as [[c|]|]; cbn;
        rewrite ?str_app_assoc; reflexivity.
    + destruct Hs as (Hio & Hfs & Hb & Ht & Hp).
      exists [FileWrite (download_path self) data]; cbn [written].
      rewrite str_app_nil_r, Hfs, lookup_alter_eq. repeat split; assumption.
  - exists []; cbn. rewrite app_nil_r. repeat split; try reflexivity; [|unfold len; cbn; lia].
    destruct (fs σ !! download_path self) as [[c|]|]; cbn; rewrite ?str_app_nil_r; reflexivity.
Qed.

(** What [open_file] does to a path that is not a directory. *)
Lemma open_file_effect path mode σ :
  fs σ !! path <> Some Dir ->
  (mode = "ab" \/ mode = "wb") ->
  open_file path mode σ =
    (Ok tt,
     set_fs (<[path := File (kept_content mode (fs σ !! path))]> (fs σ))
       (set_io (io σ ++ [FileOpen path mode]) σ)).
Proof.
  intros Hd Hm; unfold open_file; unfold_M; cbn.
  destruct (fs σ !! path) as [[c|]|] eqn:E; cbn; [|congruence|].
  - destruct Hm as [-> | ->]; cbn; [|reflexivity].
    rewrite insert_id by exact E. destruct σ; reflexivity.
  - destruct Hm as [-> | ->]; reflexivity.
Qed.

Lemma open_file_fails path mode σ :
  fs σ !! path = Some Dir -> open_file path mode σ = (Raise is_a_directory, σ).
Proof. intros E; unfold open_file; unfold_M; cbn; rewrite E; reflexivity. Qed.
Lemma bind_eq {A B} (m : M A) (k : A -> M B) σ :
  (m ≫= k) σ =
  match m σ with
  | (Ok a, σ') => k a σ'
  | (Raise e, σ') => (Raise e, σ')
  end.
Proof. reflexivity. Qed.

(** From [open] to the end of the [try] block. *)
Lemma download_attempt_tail self l evs mode σ :
  mode = "ab" \/ mode = "wb" ->
  let '(res, σ') :=
    (open_file (download_path self) mode ;;
     chunk_loop self l evs ;;
     post_message (DownloadSuccess (url self)) ;;
     remove_widget) σ in
  exists rest,
    io σ' = (io σ ++ rest)%list /\
    bytes_downloaded σ' = bytes_downloaded σ + len (written rest) /\
    total_size σ' = total_size σ /\
    (fs σ !! download_path self <> Some Dir ->
     exists ws,
       rest = FileOpen (download_path self) mode :: ws /\
       fs σ' !! download_path self =
         Some (File (kept_content mode (fs σ !! download_path self) ++ written ws))).
Proof.
  intros Hm. unfold mbind at 1, M_bind at 1.
  assert (Hd : fs σ !! download_path self = Some Dir \/
               fs σ !! download_path self <> Some Dir)
    by (destruct (fs σ !! download_path self) as [[c|]|]; auto; right; discriminate).
  destruct Hd as [Hd|Hd].
  { rewrite open_file_fails by exact Hd.
    exists []; rewrite app_nil_r; unfold len; cbn.
    repeat split; try lia. intros; contradiction. }
  rewrite open_file_effect by assumption.
  set (σo := set_fs _ _).
  unfold mbind at 1, M_bind at 1.
  pose proof (chunk_loop_effect self evs l σo) as Hl.
  destruct (chunk_loop self l evs σo) as [[[]|e] σ1];
    destruct Hl as (ws & Hio & Hfs & Hb & Ht & Hp).
  - unfold_M; cbn. exists (FileOpen (download_path self) mode :: ws).
    rewrite Hio, Hb, Ht; subst σo; cbn. rewrite <- app_assoc.
    repeat split; try reflexivity. intros _. exists ws; split; [reflexivity|].
    rewrite Hfs; cbn. rewrite lookup_insert_eq; reflexivity.
  - exists (FileOpen (download_path self) mode :: ws).
    rewrite Hio, Hb, Ht; subst σo; cbn. rewrite <- app_assoc.
    repeat split; try reflexivity. intros _. exists ws; split; [reflexivity|].
    rewrite Hfs; cbn. rewrite lookup_insert_eq; reflexivity.
Qed.

Lemma download_attempt_effect self env u resume_from l σ :
  let '(res, σ') := download_attempt self env u resume_from l σ in
  exists rest,
    io σ' = (io σ ++ HttpGet u (range_headers resume_from) :: rest)%list /\
    bytes_downloaded σ' = bytes_downloaded σ + len (written rest) /\
    forall r n,
      stream env u (range_headers resume_from) = Ok r ->
      status_code r = 200 \/ status_code r = 206 ->
      content_length_int r = Ok n ->
      fs σ !! download_path self <> Some Dir ->
      total_size σ' = (if 0 <? resume_from then n + resume_from else n) /\
      exists ws,
        rest = FileOpen (download_path self) (file_mode resume_from) :: ws /\
        fs σ' !! download_path self =
          Some (File (kept_content (file_mode resume_from)
                        (fs σ !! download_path self) ++ written ws)).
Proof.
  unfold download_attempt.
  fold (range_headers resume_from) (file_mode resume_from).
  assert (Hmode : file_mode resume_from = "ab" \/ file_mode resume_from = "wb")
    by (unfold file_mode; destruct (0 <? resume_from); auto).
  set (σe := set_io (io σ ++ [HttpGet u (range_headers resume_from)]) σ).
  assert (Hnone :
            io σe = (io σ ++ HttpGet u (range_headers resume_from) :: [])%list /\
            bytes_downloaded σe = bytes_downloaded σ + len (written [])).
  { unfold len; cbn; split; [reflexivity|lia]. }
  destruct Hnone as [Hn1 Hn2].
  rewrite bind_eq; unfold emit at 1, modify at 1; cbv beta iota; fold σe.
  rewrite bind_eq; unfold lift at 1.
  destruct (stream env u (range_headers resume_from)) as [r|e] eqn:Es; cbv beta iota.
  2: { exists []; split; [exact Hn1|]; split; [exact Hn2|]. intros; discriminate. }
  fold (content_length_int r).
  (* from the content-length on, whatever the status check let through *)
  assert (Hgo :
    let '(res, σ') :=
      (n ← lift (content_length_int r);
       modify (set_total_size n) ;;
       (if 0 <? resume_from
        then modify (fun σ => set_total_size (total_size σ + resume_from) σ)
        else mret tt) ;;
       open_file (download_path self) (file_mode resume_from) ;;
       chunk_loop self l (body r) ;;
       post_message (DownloadSuccess (url self)) ;;
       remove_widget) σe in
    exists rest,
      io σ' = (io σ ++ HttpGet u (range_headers resume_from) :: rest)%list /\
      bytes_downloaded σ' = bytes_downloaded σ + len (written rest) /\
      forall n, content_length_int r = Ok n ->
        fs σ !! download_path self <> Some Dir ->
        total_size σ' = (if 0 <? resume_from then n + resume_from else n) /\
        exists ws,
          rest = FileOpen (download_path self) (file_mode resume_from) :: ws /\
          fs σ' !! download_path self =
            Some (File (kept_content (file_mode resume_from)
                          (fs σ !! download_path self) ++ written ws))).
  { rewrite bind_eq; unfold lift at 1.
    destruct (content_length_int r) as [m|e] eqn:Ec; cbv beta iota.
    2: { exists []; split; [exact Hn1|]; split; [exact Hn2|]. intros; discriminate. }
    rewrite bind_eq; unfold modify at 1; cbv beta iota.
    rewrite bind_eq.
    assert (Ht : exists σt : state,
              (if 0 <? resume_from
               then modify (fun σ => set_total_size (total_size σ + resume_from) σ)
               else mret tt) (set_total_size m σe) = (Ok tt, σt) /\
              io σt = io σe /\ bytes_downloaded σt = bytes_downloaded σ /\
              fs σt = fs σ /\
              total_size σt = (if 0 <? resume_from then m + resume_from else m)).
    { destruct (0 <? resume_from); eexists; (split; [reflexivity|]); cbn; auto. }
    destruct Ht as (σt & -> & Hio & Hb & Hfs & Htot); cbv beta iota.
    pose proof (download_attempt_tail self l (body r) (file_mode resume_from) σt Hmode) as Ht.
    destruct ((open_file _ _ ≫= _) σt) as [res σ'].
    destruct Ht as (rest & Hio' & Hb' & Htot' & Hf).
    exists rest. rewrite Hio', Hio, Hb', Hb, Htot', Htot; subst σe; cbn.
    rewrite <- app_assoc. split; [reflexivity|]. split; [reflexivity|].
    intros n [= <-] Hd. split; [reflexivity|].
    rewrite Hfs in Hf. exact (Hf Hd). }
  rewrite bind_eq.
  destruct (negb _) eqn:Est.
  - unfold lift at 1.
    destruct (raise_for_status r) as [[]|e] eqn:Er; cbv beta iota.
    2: { exists []; split; [exact Hn1|]; split; [exact Hn2|].
         intros r' n [= <-] [H|H] _ _; rewrite H in Est; discriminate. }
    match goal with |- match ?t with _ => _ end => destruct t as [res σ'] end.
    destruct Hgo as (rest & H1 & H2 & H3). exists rest.
    split; [exact H1|]; split; [exact H2|]. intros r' n [= <-] _; apply H3.
  - unfold mret at 1, M_ret at 1; cbv beta iota.
    match goal with |- match ?t with _ => _ end => destruct t as [res σ'] end.
    destruct Hgo as (rest & H1 & H2 & H3). exists rest.
    split; [exact H1|]; split; [exact H2|]. intros r' n [= <-] _; apply H3.
Qed.

(** The [except] clauses of [download_file] leave the progress, the file
    system and the event log as the [try] block left them. *)
Lemma download_file_except self env u resume_from σ res σ1 :
  download_attempt self env u resume_from (Locals (monotonic0 env) resume_from)
    (set_bytes_downloaded resume_from σ) = (res, σ1) ->
  let σ' := snd (download_file self env u resume_from σ) in
  io σ' = io σ1 /\ bytes_downloaded σ' = bytes_downloaded σ1 /\
  total_size σ' = total_size σ1 /\ fs σ' = fs σ1.
Proof.
  intros E.
  assert (Hrun : download_file self env u resume_from σ =
            try_except (fun σ => (res, σ1))
              (fun e =>
                 match exn_cls e with
                 | CancelledError => mret tt
                 | _ =>
                     post_message (DownloadFailed (url self) (exn_text e)) ;;
                     modify (set_pause_resume_disabled true) ;;
                     modify (set_cancel_label "Failed")
                 end) σ).
  { unfold download_file. rewrite bind_eq; unfold modify at 1; cbv beta iota.
    unfold try_except. rewrite E. reflexivity. }
  rewrite Hrun; unfold try_except; cbv zeta.
  destruct res as [[]|[[] txt]]; unfold_M; cbn; auto.
Qed.

(** C2: [download_file] first sends one GET whose headers are
    [Range: bytes=<offset>-] when the offset is positive and empty
    otherwise. Its count starts from the offset: at the end
    [bytes_downloaded] is the offset plus the bytes written. When the
    answer has status 200 or 206 and a readable content-length [n], and
    the destination is not a directory, [total_size] is [n] plus the
    offset when resuming ([n] otherwise), and the file is opened in mode
    [ab] when resuming, keeping what it held, and in mode [wb] otherwise,
    holding only what this run writes. *)
Theorem download_file_resume self env u resume_from σ :
  let σ' := snd (download_file self env u resume_from σ) in
  exists rest,
    io σ' = (io σ ++ HttpGet u (range_headers resume_from) :: rest)%list /\
    bytes_downloaded σ' = resume_from + len (written rest) /\
    forall r n,
      stream env u (range_headers resume_from) = Ok r ->
      status_code r = 200 \/ status_code r = 206 ->
      content_length_int r = Ok n ->
      fs σ !! download_path self <> Some Dir ->
      total_size σ' = (if 0 <? resume_from then n + resume_from else n) /\
      exists ws,
        rest = FileOpen (download_path self) (file_mode resume_from) :: ws /\
        fs σ' !! download_path self =
          Some (File (kept_content (file_mode resume_from)
                        (fs σ !! download_path self) ++ written ws)).
Proof.
  cbv zeta.
  pose proof (download_attempt_effect self env u resume_from
                (Locals (monotonic0 env) resume_from)
                (set_bytes_downloaded resume_from σ)) as H.
  destruct (download_attempt _ _ _ _ _ _) as [res σ1] eqn:E.
  destruct (download_file_except self env u resume_from σ res σ1 E)
    as (Hio & Hb & Ht & Hfs).
  destruct H as (rest & H1 & H2 & H3). exists rest.
  rewrite Hio, Hb, Ht, Hfs. split; [exact H1|]. split; [exact H2|]. exact H3.
Qed.

(** The scenario of the specification: resuming at 400000 sends
    [Range: bytes=400000-], appends to the partial file, and reports the
    total of the whole resource. *)
Lemma download_file_resume_witness :
  let partial : gmap string node :=
    <["downloads/a.bin" := File "0123"]> downloads_only in
  let env := server_gives (Response 206 "" (Some "600000") [Chunk "4567" (seconds 1)]) in
  let σ' := snd (download_file file_item env file_url 400000 (fresh partial)) in
  io σ' = [HttpGet file_url {[ "Range" := "bytes=400000-" ]};
           FileOpen "downloads/a.bin" "ab"; FileWrite "downloads/a.bin" "4567"] /\
  bytes_downloaded σ' = 400004 /\
  total_size σ' = 1000000 /\
  fs σ' !! "downloads/a.bin" = Some (File "01234567").
Proof.
  intros partial env σ'.
  destruct (download_file_resume file_item env file_url 400000 (fresh partial))
    as (rest & Hio & Hb & H).
  destruct (H (Response 206 "" (Some "600000") [Chunk "4567" (seconds 1)]) 600000)
    as (Ht & ws & Hrest & Hfs);
    [reflexivity | right; reflexivity | vm_compute; reflexivity | vm_compute; discriminate |].
  fold σ' in Hio, Hb, Ht, Hfs.
  assert (Hio' : io σ' = [HttpGet file_url {[ "Range" := "bytes=400000-" ]};
           FileOpen "downloads/a.bin" "ab"; FileWrite "downloads/a.bin" "4567"])
    by (vm_compute; reflexivity).
  rewrite Hio' in Hio; cbn in Hio. injection Hio as Hr; subst rest.
  injection Hrest as <-.
  split; [exact Hio'|]. split; [exact Hb|]. split; [exact Ht|]. exact Hfs.
Defined.

(** ** The yt-dlp strategy: progress lines *)

(** C3, as stated, fails: on the line
    [[download]  50.5% of 3B at 1B/s ETA 00:01] the pattern matches with
    percent 50.5 and total 3, rounding 1.515 gives 2, and the source
    stores 1, because it converts with [int], which truncates. *)
Lemma progress_line_truncates :
  Re.match_ 4 progress_re (PyStr.strip progress_50_5) =
    Some [Some "50.5"; Some "3B"; Some "1B"; Some "00:01"] /\
  spec_bytes_downloaded "50.5" "3B" = Ok 2 /\
  bytes_downloaded (snd (progress_line progress_50_5 (fresh downloads_only))) = 1 /\
  Ok (bytes_downloaded (snd (progress_line progress_50_5 (fresh downloads_only))))
    <> spec_bytes_downloaded "50.5" "3B".
Proof. repeat split; try (vm_compute; reflexivity). vm_compute; discriminate. Qed.

(** C3, amended: when a line matches the pattern and its tokens convert,
    the update stores [total_size] = the parsed total token,
    [bytes_downloaded] = percent / 100 * total truncated toward zero by
    [int], and [download_speed] = the parsed rate token, and changes
    nothing else; a line that does not match changes nothing. *)
Theorem progress_line_update line σ :
  (forall p t s e B T S,
     Re.match_ 4 progress_re (PyStr.strip line) =
       Some [Some p; Some t; Some s; Some e] ->
     int_bytes_downloaded p t = Ok B ->
     parse_size_to_bytes t = Ok T ->
     parse_size_to_bytes s = Ok S ->
     progress_line line σ =
       (Ok tt, set_download_speed (NumInt S)
                 (set_total_size T (set_bytes_downloaded B σ)))) /\
  (Re.match_ 4 progress_re (PyStr.strip line) = None ->
   progress_line line σ = (Ok tt, σ)).
Proof.
  split.
  - intros p t s e B T S Hm HB HT HS. unfold progress_line. rewrite Hm.
    fold (int_bytes_downloaded p t). rewrite HB.
    unfold int_bytes_downloaded in HB.
    destruct (PyFloat.of_string p) as [x|err] eqn:Ep; [|discriminate].
    unfold_M; cbn. rewrite HT, HS; cbn. reflexivity.
  - intros Hm. unfold progress_line. rewrite Hm. reflexivity.
Qed.

Lemma progress_line_update_witness :
  progress_line progress_50_5 (fresh downloads_only) =
    (Ok tt, set_download_speed (NumInt 1)
              (set_total_size 3 (set_bytes_downloaded 1 (fresh downloads_only)))).
Proof.
  apply (proj1 (progress_line_update progress_50_5 (fresh downloads_only))
           "50.5" "3B" "1B" "00:01" 1 3 1); vm_compute; reflexivity.
Defined.

(** ** Binary rounding *)

Section BinaryRounding.
Variables prec emax : Z.
Hypothesis Hprec : 0 < prec.
Hypothesis Hemax : prec < emax.

Local Abbreviation fexp := (SpecFloat.fexp prec emax).
Local Abbreviation emin := (SpecFloat.emin prec emax).
Local Abbreviation rounded := (rounded prec emax).
Local Abbreviation valid := (valid prec emax).

Lemma fexp_mono a b : a <= b -> fexp a <= fexp b.
Proof. unfold SpecFloat.fexp; lia. Qed.

Lemma fexp_ge_emin a : emin <= fexp a.
Proof. unfold SpecFloat.fexp; lia. Qed.

(** *** Number of digits *)

Lemma digits2_pos_bounds p :
  2 ^ (Zpos (digits2_pos p) - 1) <= Zpos p < 2 ^ Zpos (digits2_pos p).
Proof.
  induction p as [p IH|p IH|]; cbn [digits2_pos]; [| |cbn; lia].
  - rewrite Pos2Z.inj_succ.
    replace (Z.succ (Zpos (digits2_pos p)) - 1) with (Z.succ (Zpos (digits2_pos p) - 1)) by lia.
    rewrite !Z.pow_succ_r by lia. lia.
  - rewrite Pos2Z.inj_succ.
    replace (Z.succ (Zpos (digits2_pos p)) - 1) with (Z.succ (Zpos (digits2_pos p) - 1)) by lia.
    rewrite !Z.pow_succ_r by lia. lia.
Qed.

Lemma Zdigits2_bounds m :
  0 < m -> 0 < Zdigits2 m /\ 2 ^ (Zdigits2 m - 1) <= m < 2 ^ Zdigits2 m.
Proof.
  destruct m as [|p|p]; try lia. intros _; cbn [Zdigits2].
  split; [lia | apply digits2_pos_bounds].
Qed.

Lemma Zdigits2_nonneg m : 0 <= Zdigits2 m.
Proof. destruct m; cbn; lia. Qed.

Lemma pow2_lt_inv a b : 0 <= b -> 2 ^ a < 2 ^ b -> a < b.
Proof.
  intros Hb H. destruct (Z_lt_le_dec a b) as [|Hle]; [assumption|].
  apply (Z.pow_le_mono_r 2) in Hle; lia.
Qed.

(** [m < 2^k] gives at most [k] digits, [2^k <= m] more than [k]. *)
Lemma Zdigits2_le m k : 0 <= k -> 0 <= m < 2 ^ k -> Zdigits2 m <= k.
Proof.
  intros Hk [H0 H]. destruct (Z.eq_dec m 0) as [->|Hne]; [cbn; lia|].
  destruct (Zdigits2_bounds m) as (Hd & Hlo & _); [lia|].
  assert (Zdigits2 m - 1 < k) by (apply pow2_lt_inv; lia). lia.
Qed.

Lemma Zdigits2_gt m k : 0 <= k -> 2 ^ k <= m -> k < Zdigits2 m.
Proof.
  intros Hk H. assert (0 < 2 ^ k) by (apply Z.pow_pos_nonneg; lia).
  destruct (Zdigits2_bounds m) as (Hd & _ & Hhi); [lia|].
  apply pow2_lt_inv; lia.
Qed.

Lemma Zdigits2_mono a b : 0 <= a <= b -> Zdigits2 a <= Zdigits2 b.
Proof.
  intros [H0 H]. destruct (Z.eq_dec a 0) as [->|Hne]; [apply Zdigits2_nonneg|].
  destruct (Zdigits2_bounds b) as (Hd & _ & Hhi); [lia|].
  apply Zdigits2_le; lia.
Qed.

(** *** Shifting right *)

(** What [shr_1] does to a non-negative mantissa. *)
Lemma shr_1_m mrs :
  0 <= shr_m mrs ->
  shr_m (shr_1 mrs) = shr_m mrs / 2 /\
  shr_r (shr_1 mrs) = Z.odd (shr_m mrs) /\
  shr_s (shr_1 mrs) = shr_r mrs || shr_s mrs.
Proof.
  destruct mrs as [m r s]; cbn [shr_m shr_r shr_s]; intros Hm.
  destruct m as [|[p|p|]|p]; try lia; cbn [shr_1 shr_m shr_r shr_s];
    repeat split; try reflexivity.
  - rewrite Pos2Z.inj_xI. apply Z.div_unique with 1; lia.
  - rewrite Pos2Z.inj_xO. apply Z.div_unique with 0; lia.
Qed.

Lemma iter_pos_succ {A} (f : A -> A) p x :
  SpecFloat.iter_pos f (Pos.succ p) x = f (SpecFloat.iter_pos f p x).
Proof.
  assert (H : forall p x,
            SpecFloat.iter_pos f p (f x) = f (SpecFloat.iter_pos f p x)).
  { clear; induction p as [p IH|p IH|]; intros x;
      cbn [SpecFloat.iter_pos]; rewrite ?IH; reflexivity. }
  revert x; induction p as [p IH|p IH|]; intros x.
  - change (Pos.succ p~1) with (Pos.succ p)~0%positive.
    cbn [SpecFloat.iter_pos]. rewrite !IH, !H. reflexivity.
  - change (Pos.succ p~0) with p~1%positive.
    cbn [SpecFloat.iter_pos]. rewrite !H. reflexivity.
  - reflexivity.
Qed.

(** An invariant kept by every single shift is kept by [n] of them. *)
Lemma iter_pos_shr_ind (P : Z -> shr_record -> Prop) mrs :
  P 0 mrs ->
  (forall k r, 0 <= k -> P k r -> P (k + 1) (shr_1 r)) ->
  forall p, P (Zpos p) (SpecFloat.iter_pos shr_1 p mrs).
Proof.
  intros H0 Hs p. induction p as [|p IH] using Pos.peano_ind.
  - cbn. apply (Hs 0); [lia | exact H0].
  - rewrite iter_pos_succ, Pos2Z.inj_succ. apply Hs; [lia | exact IH].
Qed.

Lemma loc_of_shr_record_exact mrs :
  loc_of_shr_record mrs = loc_Exact <-> shr_r mrs = false /\ shr_s mrs = false.
Proof. destruct mrs as [m [] []]; cbn; intuition discriminate. Qed.

Lemma shr_record_of_loc_m m l : shr_m (shr_record_of_loc m l) = m.
Proof. destruct l as [|[]]; reflexivity. Qed.

Lemma loc_of_shr_record_of_loc m l :
  loc_of_shr_record (shr_record_of_loc m l) = l.
Proof. destruct l as [|[]]; reflexivity. Qed.


Lemma below_shr_1 b F mrs e : below b F mrs e -> below b F (shr_1 mrs) (e + 1).
Proof.
  intros (Hb & Hm & Hle & Hlt).
  destruct (shr_1_m mrs Hm) as (Em & Er & Es).
  assert (Hp : 0 < 2 ^ (e - b)) by (apply Z.pow_pos_nonneg; lia).
  unfold below. replace (e + 1 - b) with (Z.succ (e - b)) by lia.
  rewrite Em, Z.pow_succ_r by lia.
  pose proof (Z.div_mod (shr_m mrs) 2 ltac:(lia)) as Hdm.
  pose proof (Z.mod_pos_bound (shr_m mrs) 2 ltac:(lia)) as Hmod.
  assert (Hq : 0 <= shr_m mrs / 2) by (apply Z.div_pos; lia).
  split; [lia|]. split; [exact Hq|]. split; [nia|].
  intros Hne.
  destruct (Z.odd (shr_m mrs)) eqn:Eo.
  - rewrite Zmod_odd, Eo in Hdm. nia.
  - assert (loc_of_shr_record mrs <> loc_Exact).
    { intros Hx; apply Hne. apply loc_of_shr_record_exact.
      rewrite Er, Es.
      apply loc_of_shr_record_exact in Hx as [-> ->]. auto. }
    specialize (Hlt H). nia.
Qed.

(** [shr]: the exponent, the mantissa, and the invariant. *)
Lemma shr_spec b F mrs e n :
  below b F mrs e ->
  let '(mrs', e') := shr mrs e n in
  e' = e + Z.max 0 n /\
  shr_m mrs' = shr_m mrs / 2 ^ Z.max 0 n /\
  below b F mrs' e'.
Proof.
  intros H. unfold shr. destruct n as [|p|p].
  - rewrite Z.add_0_r; cbn. rewrite Z.div_1_r. auto.
  - replace (Z.max 0 (Zpos p)) with (Zpos p) by lia.
    split; [reflexivity|].
    apply (iter_pos_shr_ind
             (fun k r => shr_m r = shr_m mrs / 2 ^ k /\ below b F r (e + k))).
    + rewrite Z.add_0_r; cbn. rewrite Z.div_1_r. auto.
    + intros k r Hk [Hm Hbe]. split.
      * destruct Hbe as (_ & Hr & _). destruct (shr_1_m r Hr) as (-> & _).
        rewrite Hm, Z.pow_add_r, Z.div_div by lia.
        cbn; reflexivity || (f_equal; lia).
      * rewrite Z.add_assoc. apply below_shr_1, Hbe.
  - rewrite Z.add_0_r; cbn. rewrite Z.div_1_r. auto.
Qed.

Lemma div_pow2_digits m n :
  0 < m -> 0 <= n -> Zdigits2 (m / 2 ^ n) = Z.max 0 (Zdigits2 m - n).
Proof.
  intros Hm Hn. destruct (Zdigits2_bounds m Hm) as (Hd & Hlo & Hhi).
  assert (Hp : 0 < 2 ^ n) by (apply Z.pow_pos_nonneg; lia).
  destruct (Z_lt_le_dec n (Zdigits2 m)) as [Hlt|Hge].
  - replace (Z.max 0 (Zdigits2 m - n)) with (Zdigits2 m - n) by lia.
    assert (H1 : 2 ^ (Zdigits2 m - n - 1) <= m / 2 ^ n).
    { apply Z.div_le_lower_bound; [lia|].
      rewrite <- Z.pow_add_r by lia.
      replace (n + (Zdigits2 m - n - 1)) with (Zdigits2 m - 1) by lia. exact Hlo. }
    assert (H2 : m / 2 ^ n < 2 ^ (Zdigits2 m - n)).
    { apply Z.div_lt_upper_bound; [lia|].
      rewrite <- Z.pow_add_r by lia.
      replace (n + (Zdigits2 m - n)) with (Zdigits2 m) by lia. exact Hhi. }
    assert (0 < 2 ^ (Zdigits2 m - n - 1)) by (apply Z.pow_pos_nonneg; lia).
    pose proof (Zdigits2_le (m / 2 ^ n) (Zdigits2 m - n) ltac:(lia) ltac:(lia)).
    pose proof (Zdigits2_gt (m / 2 ^ n) (Zdigits2 m - n - 1) ltac:(lia) H1).
    lia.
  - replace (Z.max 0 (Zdigits2 m - n)) with 0 by lia.
    rewrite Z.div_small; [reflexivity|].
    assert (2 ^ Zdigits2 m <= 2 ^ n) by (apply Z.pow_le_mono_r; lia). lia.
Qed.

(** [shr_fexp] on an input whose exponent is not above the one its
    magnitude calls for: the result sits at that exponent, and is
    canonical when it is not zero. *)
Lemma shr_fexp_spec b F m e l :
  0 <= m -> e <= fexp (Zdigits2 m + e) ->
  below b F (shr_record_of_loc m l) e ->
  let '(mrs', e') := shr_fexp prec emax m e l in
  e' = fexp (Zdigits2 m + e) /\
  shr_m mrs' = m / 2 ^ (e' - e) /\
  below b F mrs' e' /\
  (0 < shr_m mrs' -> fexp (Zdigits2 (shr_m mrs') + e') = e') /\
  (shr_m mrs' = 0 -> e' = emin).
Proof.
  intros Hm He Hbe. unfold shr_fexp.
  pose proof (shr_spec b F _ e (fexp (Zdigits2 m + e) - e) Hbe) as H.
  destruct (shr _ e _) as [mrs' e'].
  rewrite shr_record_of_loc_m in H. destruct H as (-> & Em & Hb').
  replace (Z.max 0 (fexp (Zdigits2 m + e) - e)) with (fexp (Zdigits2 m + e) - e) in * by lia.
  replace (e + (fexp (Zdigits2 m + e) - e)) with (fexp (Zdigits2 m + e)) in * by lia.
  split; [reflexivity|]. split; [exact Em|]. split; [exact Hb'|].
  set (n := fexp (Zdigits2 m + e) - e) in *.
  split.
  - intros Hpos. destruct (Z.eq_dec m 0) as [->|Hne].
    { rewrite Em, Z.div_0_l in Hpos; [lia|]. apply Z.pow_nonzero; lia. }
    rewrite Em, div_pow2_digits by lia.
    assert (Hd : 0 < Zdigits2 (m / 2 ^ n)) by (rewrite <- Em; apply Zdigits2_bounds, Hpos).
    rewrite div_pow2_digits in Hd by lia.
    replace (Z.max 0 (Zdigits2 m - n)) with (Zdigits2 m - n) by lia.
    f_equal; subst n; lia.
  - intros H0. rewrite Em in H0.
    destruct (Z.eq_dec m 0) as [->|Hne].
    { subst n. change (Zdigits2 0) with 0 in *. unfold SpecFloat.fexp in *. lia. }
    assert (Hpos : 0 < m) by lia.
    destruct (Zdigits2_bounds m Hpos) as (Hd & Hlo & Hhi).
    assert (Hn : Zdigits2 m <= n).
    { destruct (Z_lt_le_dec n (Zdigits2 m)) as [Hlt|]; [|assumption].
      assert (2 ^ n <= m).
      { transitivity (2 ^ (Zdigits2 m - 1)); [apply Z.pow_le_mono_r; lia | exact Hlo]. }
      assert (0 < 2 ^ n) by (apply Z.pow_pos_nonneg; lia).
      assert (1 <= m / 2 ^ n) by (apply Z.div_le_lower_bound; lia). lia. }
    subst n. unfold SpecFloat.fexp in *. lia.
Qed.

Lemma round_nearest_even_cases m l :
  round_nearest_even m l = m \/
  (round_nearest_even m l = m + 1 /\ l <> loc_Exact).
Proof.
  destruct l as [|[]]; cbn; try destruct (Z.even m);
    first [left; reflexivity | right; split; [reflexivity | discriminate]].
Qed.

(** Magnitudes: a smaller number has no more digits above the point. *)
Lemma digits_le_of_scaled_le b m e mf ef :
  0 < m -> 0 < mf -> b <= e -> b <= ef ->
  m * 2 ^ (e - b) <= mf * 2 ^ (ef - b) ->
  Zdigits2 m + e <= Zdigits2 mf + ef.
Proof.
  intros Hm Hmf Hbe Hbf Hle.
  destruct (Zdigits2_bounds m Hm) as (Hd & Hlo & _).
  destruct (Zdigits2_bounds mf Hmf) as (Hdf & _ & Hhi).
  assert (H1 : 2 ^ (Zdigits2 m - 1 + (e - b)) <= m * 2 ^ (e - b)).
  { rewrite Z.pow_add_r by lia. apply Z.mul_le_mono_nonneg_r; [|exact Hlo].
    apply Z.pow_nonneg; lia. }
  assert (H2 : mf * 2 ^ (ef - b) < 2 ^ (Zdigits2 mf + (ef - b))).
  { rewrite Z.pow_add_r by lia. apply Z.mul_lt_mono_pos_r; [|exact Hhi].
    apply Z.pow_pos_nonneg; lia. }
  assert (Zdigits2 m - 1 + (e - b) < Zdigits2 mf + (ef - b))
    by (apply pow2_lt_inv; lia).
  lia.
Qed.

(** The result of [binary_round_aux] when the input is not above its
    exponent: it has the sign asked for, it is never a NaN, a finite
    result is bounded, and it stays below every [F] that the input is
    below and that lies on the grid of the rounding exponent. *)
Lemma binary_round_aux_spec b F s m e l :
  0 <= m -> e <= fexp (Zdigits2 m + e) ->
  below b F (shr_record_of_loc m l) e ->
  (forall k, 0 <= k -> k * 2 ^ (fexp (Zdigits2 m + e) - b) < F ->
             (k + 1) * 2 ^ (fexp (Zdigits2 m + e) - b) <= F) ->
  match binary_round_aux prec emax s m e l with
  | S754_zero s' => s' = s
  | S754_infinity s' =>
      s' = s /\
      exists m' e', emax - prec < e' /\ b <= e' /\ 0 < m' /\
        m' * 2 ^ (e' - b) <= F /\ fexp (Zdigits2 m' + e') = e'
  | S754_finite s' m' e' =>
      s' = s /\ bounded prec emax m' e' = true /\ b <= e' /\
      Zpos m' * 2 ^ (e' - b) <= F
  | S754_nan => False
  end.
Proof.
  intros Hm He Hbe Hgrid. unfold binary_round_aux.
  pose proof (shr_fexp_spec b F m e l Hm He Hbe) as H1.
  destruct (shr_fexp prec emax m e l) as [mrs1 e1].
  destruct H1 as (-> & Em1 & Hb1 & Hc1 & Hz1).
  set (e1 := fexp (Zdigits2 m + e)) in *.
  set (m1 := shr_m mrs1) in *.
  set (mr := round_nearest_even m1 (loc_of_shr_record mrs1)).
  destruct Hb1 as (Hbe1 & Hm1 & Hle1 & Hlt1).
  assert (Hmr : 0 <= mr /\ m1 <= mr /\ mr * 2 ^ (e1 - b) <= F).
  { destruct (round_nearest_even_cases m1 (loc_of_shr_record mrs1)) as [E|[E Hne]];
      fold mr in E; rewrite E.
    - repeat split; try lia.
    - repeat split; try lia. apply Hgrid; [exact Hm1 | apply Hlt1, Hne]. }
  destruct Hmr as (Hmr0 & Hmr1 & HmrF).
  assert (Hpre : e1 <= fexp (Zdigits2 mr + e1)).
  { destruct (Z.eq_dec m1 0) as [E0|Hne].
    - rewrite (Hz1 E0). apply fexp_ge_emin.
    - rewrite <- (Hc1 ltac:(lia)) at 1. apply fexp_mono.
      pose proof (Zdigits2_mono m1 mr ltac:(lia)). lia. }
  assert (Hbr : below b F (shr_record_of_loc mr loc_Exact) e1).
  { unfold below; cbn. repeat split; try assumption. congruence. }
  pose proof (shr_fexp_spec b F mr e1 loc_Exact Hmr0 Hpre Hbr) as H2.
  destruct (shr_fexp prec emax mr e1 loc_Exact) as [mrs2 e2].
  destruct H2 as (-> & Em2 & Hb2 & Hc2 & Hz2).
  destruct Hb2 as (Hbe2 & Hm2 & Hle2 & _).
  destruct (shr_m mrs2) as [|p|p] eqn:Ep; [reflexivity | | lia].
  specialize (Hc2 ltac:(lia)).
  destruct (Z.leb_spec (fexp (Zdigits2 mr + e1)) (emax - prec)) as [Hok|Hov].
  - split; [reflexivity|]. split; [|split; assumption].
    unfold bounded, canonical_mantissa. cbn [Zdigits2] in Hc2.
    rewrite Hc2, Z.eqb_refl. cbn. apply Z.leb_le, Hok.
  - split; [reflexivity|].
    exists (Zpos p), (fexp (Zdigits2 mr + e1)). repeat split; try assumption; lia.
Qed.

Lemma below_trivial m e l :
  0 <= m -> below e (m + 1) (shr_record_of_loc m l) e.
Proof.
  intros Hm. unfold below. rewrite shr_record_of_loc_m, Z.sub_diag. cbn. lia.
Qed.


Lemma binary_round_aux_valid s m e l :
  0 <= m -> e <= fexp (Zdigits2 m + e) ->
  rounded s (binary_round_aux prec emax s m e l).
Proof.
  intros Hm He.
  set (e1 := fexp (Zdigits2 m + e)).
  pose proof (binary_round_aux_spec e ((m / 2 ^ (e1 - e) + 1) * 2 ^ (e1 - e))
                s m e l Hm He) as H.
  assert (Hp : 0 < 2 ^ (e1 - e)) by (apply Z.pow_pos_nonneg; lia).
  assert (Hq : 0 <= m / 2 ^ (e1 - e)) by (apply Z.div_pos; lia).
  pose proof (Z.div_mod m (2 ^ (e1 - e)) ltac:(lia)) as Hdm.
  pose proof (Z.mod_pos_bound m (2 ^ (e1 - e)) Hp) as Hmod.
  lapply H.
  - clear H; intros H; lapply H.
    + clear H. unfold rounded.
      destruct (binary_round_aux prec emax s m e l); tauto.
    + fold e1. intros k Hk Hlt.
      apply Z.mul_lt_mono_pos_r in Hlt; [|exact Hp].
      apply Z.mul_le_mono_nonneg_r; lia.
  - unfold below. rewrite shr_record_of_loc_m, Z.sub_diag. cbn.
    repeat split; try lia.
Qed.

(** Monotonicity: a bounded [mf * 2^ef] above the input is above the
    rounded result, which is therefore finite. *)
Lemma binary_round_aux_le b mf ef s m e l :
  0 <= m -> e <= fexp (Zdigits2 m + e) ->
  bounded prec emax mf ef = true -> b <= ef ->
  below b (Zpos mf * 2 ^ (ef - b)) (shr_record_of_loc m l) e ->
  match binary_round_aux prec emax s m e l with
  | S754_zero s' => s' = s
  | S754_finite s' m' e' =>
      s' = s /\ bounded prec emax m' e' = true /\ b <= e' /\
      Zpos m' * 2 ^ (e' - b) <= Zpos mf * 2 ^ (ef - b)
  | _ => False
  end.
Proof.
  intros Hm He Hbd Hbf Hbe.
  unfold bounded, canonical_mantissa in Hbd.
  apply andb_true_iff in Hbd as [Hcan Hmax].
  apply Z.eqb_eq in Hcan. apply Z.leb_le in Hmax.
  change (Zpos (digits2_pos mf)) with (Zdigits2 (Zpos mf)) in Hcan.
  pose proof Hbe as (Hb0 & _ & Hle0 & _). rewrite shr_record_of_loc_m in Hle0.
  assert (He1 : fexp (Zdigits2 m + e) <= ef).
  { destruct (Z.eq_dec m 0) as [->|Hne].
    - change (Zdigits2 0) with 0 in *. unfold SpecFloat.fexp in *. lia.
    - rewrite <- Hcan. apply fexp_mono.
      apply (digits_le_of_scaled_le b); lia. }
  pose proof (binary_round_aux_spec b (Zpos mf * 2 ^ (ef - b)) s m e l Hm He Hbe) as H.
  lapply H.
  - clear H. destruct (binary_round_aux prec emax s m e l) as [s'|s'| |s' m' e']; auto.
    intros (_ & m' & e' & Hov & Hbe' & Hm' & Hle & Hc').
    assert (Zdigits2 m' + e' <= Zdigits2 (Zpos mf) + ef)
      by (apply (digits_le_of_scaled_le b); lia).
    pose proof (fexp_mono _ _ H). lia.
  - intros k Hk Hlt.
    set (e1 := fexp (Zdigits2 m + e)) in *.
    assert (b <= e1).
    { subst e1. lia. }
    replace (ef - b) with ((ef - e1) + (e1 - b)) in * by lia.
    rewrite Z.pow_add_r in * by lia.
    assert (Hp1 : 0 < 2 ^ (e1 - b)) by (apply Z.pow_pos_nonneg; lia).
    assert (0 < 2 ^ (ef - e1)) by (apply Z.pow_pos_nonneg; lia).
    rewrite Z.mul_assoc in *.
    apply Z.mul_lt_mono_pos_r in Hlt; [|exact Hp1].
    apply Z.mul_le_mono_nonneg_r; lia.
Qed.

(** *** Bounded floats *)

Lemma bounded_canonical m e :
  bounded prec emax m e = true ->
  fexp (Zdigits2 (Zpos m) + e) = e /\ e <= emax - prec /\ emin <= e /\
  Zdigits2 (Zpos m) <= prec /\ (Zdigits2 (Zpos m) = prec \/ e = emin).
Proof.
  unfold bounded, canonical_mantissa. intros H.
  apply andb_true_iff in H as [Hcan Hmax].
  apply Z.eqb_eq in Hcan. apply Z.leb_le in Hmax.
  change (Zpos (digits2_pos m)) with (Zdigits2 (Zpos m)) in Hcan.
  unfold SpecFloat.fexp in *. lia.
Qed.

Lemma emin_nonpos : emin <= 0.
Proof. unfold SpecFloat.emin. lia. Qed.

Lemma Zdigits2_mul a c :
  0 < a -> 0 < c -> Zdigits2 a + Zdigits2 c - 1 <= Zdigits2 (a * c).
Proof.
  intros Ha Hc.
  destruct (Zdigits2_bounds a Ha) as (Hda & Hla & _).
  destruct (Zdigits2_bounds c Hc) as (Hdc & Hlc & _).
  assert (H : 2 ^ (Zdigits2 a - 1 + (Zdigits2 c - 1)) <= a * c).
  { rewrite Z.pow_add_r by lia.
    assert (0 < 2 ^ (Zdigits2 a - 1)) by (apply Z.pow_pos_nonneg; lia).
    assert (0 < 2 ^ (Zdigits2 c - 1)) by (apply Z.pow_pos_nonneg; lia).
    nia. }
  apply Zdigits2_gt in H; lia.
Qed.

(** The product of two bounded floats is not above its exponent. *)
Lemma mul_precondition mx ex my ey :
  bounded prec emax mx ex = true -> bounded prec emax my ey = true ->
  ex + ey <= fexp (Zdigits2 (Zpos (mx * my)) + (ex + ey)).
Proof.
  intros Hx Hy.
  destruct (bounded_canonical _ _ Hx) as (_ & _ & Hex & Hdx & Hcx).
  destruct (bounded_canonical _ _ Hy) as (_ & _ & Hey & Hdy & Hcy).
  pose proof (Zdigits2_mul (Zpos mx) (Zpos my) ltac:(lia) ltac:(lia)) as Hd.
  rewrite <- Pos2Z.inj_mul in Hd.
  pose proof (Zdigits2_bounds (Zpos mx) ltac:(lia)) as (Hpx & _).
  pose proof (Zdigits2_bounds (Zpos my) ltac:(lia)) as (Hpy & _).
  pose proof emin_nonpos.
  unfold SpecFloat.fexp. lia.
Qed.


Lemma rounded_valid s x : rounded s x -> valid x /\ x <> S754_nan.
Proof.
  unfold rounded, valid. destruct x; cbn; intros H; split;
    try reflexivity; try discriminate; try tauto.
Qed.

Lemma SFmul_rounded sx mx ex sy my ey :
  bounded prec emax mx ex = true -> bounded prec emax my ey = true ->
  rounded (xorb sx sy)
    (SFmul prec emax (S754_finite sx mx ex) (S754_finite sy my ey)).
Proof.
  intros Hx Hy. cbn [SFmul].
  apply binary_round_aux_valid; [lia|].
  apply mul_precondition; assumption.
Qed.

Lemma SFmul_valid x y : valid x -> valid y -> valid (SFmul prec emax x y).
Proof.
  unfold valid. destruct x as [sx|sx| |sx mx ex], y as [sy|sy| |sy my ey];
    cbn [valid_binary SFmul]; intros Hx Hy; try reflexivity.
  apply (rounded_valid (xorb sx sy)), SFmul_rounded; assumption.
Qed.

(** *** Division *)

Lemma new_location_exact n k : new_location n k = loc_Exact <-> k = 0.
Proof.
  unfold new_location, new_location_even, new_location_odd.
  destruct (Z.even n); destruct (Z.eqb_spec k 0); split; intros H;
    try reflexivity; try discriminate; try contradiction; try assumption.
Qed.

(** The quotient that [SFdiv] rounds: it is not above its exponent, and
    it is below every [F] that the exact quotient is not above. *)
Lemma SFdiv_core_binary_spec m1 e1 m2 e2 :
  0 < m1 -> 0 < m2 ->
  let '(q, e', l) := SFdiv_core_binary prec emax m1 e1 m2 e2 in
  0 <= q /\ e' <= fexp (Zdigits2 q + e') /\ e' <= e1 - e2 /\
  e' = Z.min (fexp (Zdigits2 m1 + e1 - (Zdigits2 m2 + e2))) (e1 - e2) /\
  forall b F, b <= e' ->
    m1 * 2 ^ (e1 - e2 - e') * 2 ^ (e' - b) <= F * m2 ->
    below b F (shr_record_of_loc q l) e'.
Proof.
  intros H1 H2. unfold SFdiv_core_binary.
  set (e' := Z.min (fexp (Zdigits2 m1 + e1 - (Zdigits2 m2 + e2))) (e1 - e2)).
  set (s := e1 - e2 - e').
  assert (Hs : 0 <= s) by (subst s e'; lia).
  set (m' := match s with Z.pos _ => Z.shiftl m1 s | Z0 => m1 | Z.neg _ => 0 end).
  assert (Em' : m' = m1 * 2 ^ s).
  { subst m'. destruct s as [|p|p] eqn:Es; [cbn; lia | | lia].
    rewrite Z.shiftl_mul_pow2 by lia. reflexivity. }
  assert (Hp : 0 < 2 ^ s) by (apply Z.pow_pos_nonneg; lia).
  pose proof (Z.div_eucl_eq m' m2 ltac:(lia)) as Hdm.
  pose proof (Z.mod_pos_bound m' m2 H2) as Hmod.
  unfold Z.modulo in Hmod.
  destruct (Z.div_eucl m' m2) as [q r] eqn:Ed. cbn [fst snd] in *.
  assert (Hq : 0 <= q) by nia.
  split; [exact Hq|]. split; [|split; [subst e'; lia | split; [reflexivity|]]].
  - (* the exponent *)
    destruct (Zdigits2_bounds m1 H1) as (Hd1 & Hlo1 & _).
    destruct (Zdigits2_bounds m2 H2) as (Hd2 & _ & Hhi2).
    set (k := Zdigits2 m1 - 1 + s - Zdigits2 m2).
    destruct (Z_lt_le_dec k 0) as [Hk|Hk].
    + transitivity (fexp e').
      * transitivity (fexp (Zdigits2 m1 + e1 - (Zdigits2 m2 + e2))); [subst e'; lia|].
        apply fexp_mono. subst k s. lia.
      * apply fexp_mono. pose proof (Zdigits2_nonneg q). lia.
    + assert (Hqk : 2 ^ k <= q).
      { assert (2 ^ k * m2 <= m').
        { transitivity (2 ^ k * 2 ^ Zdigits2 m2).
          - apply Z.mul_le_mono_nonneg_l; [apply Z.pow_nonneg|]; lia.
          - rewrite <- Z.pow_add_r by lia.
            replace (k + Zdigits2 m2) with (Zdigits2 m1 - 1 + s) by (subst k; lia).
            rewrite Z.pow_add_r, Em' by lia.
            apply Z.mul_le_mono_nonneg_r; lia. }
        assert (0 < 2 ^ k) by (apply Z.pow_pos_nonneg; lia).
        nia. }
      apply Zdigits2_gt in Hqk; [|exact Hk].
      transitivity (fexp (Zdigits2 m1 + e1 - (Zdigits2 m2 + e2))); [subst e'; lia|].
      apply fexp_mono. subst k s. lia.
  - (* the bound *)
    intros b F Hb HF. fold s in HF. rewrite <- Em' in HF.
    assert (Hpb : 0 < 2 ^ (e' - b)) by (apply Z.pow_pos_nonneg; lia).
    unfold below. rewrite shr_record_of_loc_m, loc_of_shr_record_of_loc.
    split; [exact Hb|]. split; [exact Hq|].
    assert (Hle : q * 2 ^ (e' - b) * m2 <= F * m2) by nia.
    split.
    + apply Z.mul_le_mono_pos_r in Hle; assumption.
    + intros Hne. rewrite new_location_exact in Hne.
      assert (Hlt : q * 2 ^ (e' - b) * m2 < F * m2) by nia.
      apply Z.mul_lt_mono_pos_r in Hlt; assumption.
Qed.

Lemma SFdiv_rounded sx mx ex sy my ey :
  rounded (xorb sx sy)
    (SFdiv prec emax (S754_finite sx mx ex) (S754_finite sy my ey)).
Proof.
  cbn [SFdiv].
  pose proof (SFdiv_core_binary_spec (Zpos mx) ex (Zpos my) ey ltac:(lia) ltac:(lia)) as H.
  destruct (SFdiv_core_binary prec emax (Zpos mx) ex (Zpos my) ey) as [[q e'] l].
  destruct H as (Hq & He & _).
  apply binary_round_aux_valid; assumption.
Qed.

(** *** Normalizing an integer mantissa *)

Lemma pos_iter_xO m d : Zpos (Pos.iter xO m d) = Zpos m * 2 ^ Zpos d.
Proof.
  induction d as [|d IH] using Pos.peano_ind.
  - cbn. lia.
  - rewrite Pos.iter_succ, Pos2Z.inj_xO, IH, Pos2Z.inj_succ, Z.pow_succ_r; lia.
Qed.

Lemma Zdigits2_shift m d :
  0 < m -> 0 <= d -> Zdigits2 (m * 2 ^ d) = Zdigits2 m + d.
Proof.
  intros Hm Hd. destruct (Zdigits2_bounds m Hm) as (Hdm & Hlo & Hhi).
  assert (Hp : 0 < 2 ^ d) by (apply Z.pow_pos_nonneg; lia).
  assert (H1 : 2 ^ (Zdigits2 m - 1 + d) <= m * 2 ^ d).
  { rewrite Z.pow_add_r by lia. apply Z.mul_le_mono_nonneg_r; lia. }
  assert (H2 : m * 2 ^ d < 2 ^ (Zdigits2 m + d)).
  { rewrite Z.pow_add_r by lia. apply Z.mul_lt_mono_pos_r; lia. }
  apply Zdigits2_gt in H1; [|lia].
  pose proof (Zdigits2_le (m * 2 ^ d) (Zdigits2 m + d) ltac:(lia) ltac:(lia)).
  lia.
Qed.

(** [shl_align] to the exponent of the magnitude keeps the value and
    leaves the mantissa not above that exponent. *)
Lemma shl_align_spec mx ex :
  let '(mz, ez) := shl_align mx ex (fexp (Zdigits2 (Zpos mx) + ex)) in
  ez <= ex /\ Zpos mz = Zpos mx * 2 ^ (ex - ez) /\
  ez <= fexp (Zdigits2 (Zpos mz) + ez).
Proof.
  unfold shl_align.
  destruct (fexp (Zdigits2 (Zpos mx) + ex) - ex) as [|d|d] eqn:Ed.
  - rewrite Z.sub_diag. cbn [Z.pow]. split; [lia|]. split; lia.
  - rewrite Z.sub_diag. cbn [Z.pow]. split; [lia|]. split; lia.
  - assert (Eex : ex - fexp (Zdigits2 (Zpos mx) + ex) = Zpos d) by lia.
    rewrite Eex, pos_iter_xO. split; [lia|]. split; [reflexivity|].
    rewrite Zdigits2_shift by lia.
    replace (Zdigits2 (Zpos mx) + Zpos d + fexp (Zdigits2 (Zpos mx) + ex))
      with (Zdigits2 (Zpos mx) + ex) by lia.
    lia.
Qed.

Lemma binary_round_rounded s mx ex :
  rounded s (binary_round prec emax s mx ex).
Proof.
  unfold binary_round.
  pose proof (shl_align_spec mx ex) as H.
  change (Zpos (digits2_pos mx)) with (Zdigits2 (Zpos mx)).
  destruct (shl_align mx ex _) as [mz ez]. destruct H as (_ & _ & H).
  apply binary_round_aux_valid; [lia | exact H].
Qed.

(** Rounding an integer mantissa stays below a bounded float that the
    value is not above. *)
Lemma binary_round_le b mf ef s mx ex :
  bounded prec emax mf ef = true -> b <= ef -> b <= ex ->
  b <= fexp (Zdigits2 (Zpos mx) + ex) ->
  Zpos mx * 2 ^ (ex - b) <= Zpos mf * 2 ^ (ef - b) ->
  match binary_round prec emax s mx ex with
  | S754_zero s' => s' = s
  | S754_finite s' m' e' =>
      s' = s /\ bounded prec emax m' e' = true /\ b <= e' /\
      Zpos m' * 2 ^ (e' - b) <= Zpos mf * 2 ^ (ef - b)
  | _ => False
  end.
Proof.
  intros Hbd Hbf Hbx Hbz Hle. unfold binary_round.
  pose proof (shl_align_spec mx ex) as H.
  change (Zpos (digits2_pos mx)) with (Zdigits2 (Zpos mx)).
  unfold shl_align in *.
  destruct (fexp (Zdigits2 (Zpos mx) + ex) - ex) as [|d|d] eqn:Ed;
    destruct H as (Hez & Emz & Hpre);
    (apply binary_round_aux_le; [lia | exact Hpre | exact Hbd | exact Hbf |]);
    unfold below; cbn [shr_record_of_loc shr_m loc_of_shr_record].
  - repeat split; try lia. congruence.
  - repeat split; try lia. congruence.
  - split; [lia|]. split; [lia|]. split; [|congruence].
    rewrite Emz, <- Z.mul_assoc, <- Z.pow_add_r by lia.
    replace (ex - fexp (Zdigits2 (Zpos mx) + ex) + (fexp (Zdigits2 (Zpos mx) + ex) - b))
      with (ex - b) by lia.
    exact Hle.
Qed.

(** *** Values *)

(** Changing the scale of a comparison. *)
Lemma scaled_le_rebase b b' m1 e1 m2 e2 :
  b' <= b -> b <= e1 -> b <= e2 ->
  (m1 * 2 ^ (e1 - b) <= m2 * 2 ^ (e2 - b) <->
   m1 * 2 ^ (e1 - b') <= m2 * 2 ^ (e2 - b')).
Proof.
  intros Hb H1 H2.
  replace (e1 - b') with ((e1 - b) + (b - b')) by lia.
  replace (e2 - b') with ((e2 - b) + (b - b')) by lia.
  rewrite !Z.pow_add_r, !Z.mul_assoc by lia.
  assert (0 < 2 ^ (b - b')) by (apply Z.pow_pos_nonneg; lia).
  split; intros H'.
  - apply Z.mul_le_mono_nonneg_r; lia.
  - apply Z.mul_le_mono_pos_r in H'; assumption.
Qed.

(** [int] of a positive finite float, on a scale. *)
Lemma shiftl_scaled b m e :
  b <= e -> b <= 0 -> Z.shiftl m e = (m * 2 ^ (e - b)) / 2 ^ (- b).
Proof.
  intros Hbe Hb0.
  assert (Hpb : 0 < 2 ^ (- b)) by (apply Z.pow_pos_nonneg; lia).
  destruct (Z_le_gt_dec 0 e) as [He|He].
  - rewrite Z.shiftl_mul_pow2 by lia.
    replace (e - b) with (e + - b) by lia.
    rewrite Z.pow_add_r, Z.mul_assoc, Z.div_mul by lia. reflexivity.
  - rewrite Z.shiftl_div_pow2 by lia.
    replace (- b) with (- e + (e - b)) by lia.
    rewrite Z.pow_add_r by lia.
    assert (0 < 2 ^ (e - b)) by (apply Z.pow_pos_nonneg; lia).
    assert (0 < 2 ^ (- e)) by (apply Z.pow_pos_nonneg; lia).
    rewrite Z.div_mul_cancel_r by lia. reflexivity.
Qed.

Lemma shiftl_le b m1 e1 m2 e2 :
  b <= e1 -> b <= e2 ->
  m1 * 2 ^ (e1 - b) <= m2 * 2 ^ (e2 - b) ->
  Z.shiftl m1 e1 <= Z.shiftl m2 e2.
Proof.
  intros H1 H2 Hle.
  set (b' := Z.min b 0).
  rewrite (shiftl_scaled b' m1 e1), (shiftl_scaled b' m2 e2) by lia.
  apply Z.div_le_mono; [apply Z.pow_pos_nonneg; lia|].
  apply (scaled_le_rebase b b'); (assumption || lia).
Qed.

(** [<=] on bounded positive floats is [<=] on their values. *)
Lemma SFleb_scaled m1 e1 m2 e2 :
  bounded prec emax m1 e1 = true -> bounded prec emax m2 e2 = true ->
  SFleb (S754_finite false m1 e1) (S754_finite false m2 e2) = true ->
  Zpos m1 * 2 ^ (e1 - emin) <= Zpos m2 * 2 ^ (e2 - emin).
Proof.
  intros H1 H2 Hle.
  destruct (bounded_canonical _ _ H1) as (Hc1 & _ & Hm1 & _).
  destruct (bounded_canonical _ _ H2) as (Hc2 & _ & Hm2 & _).
  unfold SFleb, SFcompare in Hle. revert Hle.
  change (Pos.compare_cont Eq m1 m2) with (Pos.compare m1 m2).
  destruct (Z.compare_spec e1 e2) as [->|Hlt|Hgt]; [| |discriminate].
  - intros Hle. apply Z.mul_le_mono_nonneg_r; [apply Z.pow_nonneg; lia|].
    destruct (Pos.compare_spec m1 m2); try discriminate; lia.
  - (* a smaller exponent means a smaller magnitude *)
    intros _.
    assert (Hd : Zdigits2 (Zpos m1) + e1 < Zdigits2 (Zpos m2) + e2).
    { destruct (Z_lt_le_dec (Zdigits2 (Zpos m1) + e1) (Zdigits2 (Zpos m2) + e2))
        as [|Hge]; [assumption|].
      pose proof (fexp_mono _ _ Hge). lia. }
    destruct (Zdigits2_bounds (Zpos m1) ltac:(lia)) as (Hp1 & _ & Hhi).
    destruct (Zdigits2_bounds (Zpos m2) ltac:(lia)) as (Hp2 & Hlo & _).
    transitivity (2 ^ (Zdigits2 (Zpos m1) + (e1 - emin))).
    + rewrite Z.pow_add_r by lia.
      apply Z.mul_le_mono_nonneg_r; [apply Z.pow_nonneg|]; lia.
    + transitivity (2 ^ (Zdigits2 (Zpos m2) - 1 + (e2 - emin))).
      * apply Z.pow_le_mono_r; lia.
      * rewrite Z.pow_add_r by lia.
        apply Z.mul_le_mono_nonneg_r; [apply Z.pow_nonneg|]; lia.
Qed.


(** *** Order of the results *)

(** [x <= 1] gives [x * t <= t]. *)
Lemma SFmul_le mq eq mt et :
  bounded prec emax mq eq = true -> bounded prec emax mt et = true ->
  Zpos mq * 2 ^ (eq - emin) <= 2 ^ (- emin) ->
  match SFmul prec emax (S754_finite false mq eq) (S754_finite false mt et) with
  | S754_zero s' => s' = false
  | S754_finite s' m e =>
      s' = false /\ bounded prec emax m e = true /\
      Zpos m * 2 ^ (e - emin) <= Zpos mt * 2 ^ (et - emin)
  | _ => False
  end.
Proof.
  intros Hq Ht Hle. cbn [SFmul xorb].
  destruct (bounded_canonical _ _ Hq) as (_ & _ & Heq & _).
  destruct (bounded_canonical _ _ Ht) as (_ & _ & Het & _).
  pose proof emin_nonpos as Hemin.
  pose proof (binary_round_aux_le (emin + emin) mt et false
                (Zpos (mq * mt)) (eq + et) loc_Exact ltac:(lia)
                (mul_precondition mq eq mt et Hq Ht) Ht ltac:(lia)) as H.
  lapply H.
  - clear H. destruct (binary_round_aux _ _ _ _ _ _) as [s'|s'| |s' m e]; auto.
    intros (Hs & Hb & Hbe & Hle').
    split; [exact Hs|]. split; [exact Hb|].
    destruct (bounded_canonical _ _ Hb) as (_ & _ & He & _).
    apply (scaled_le_rebase emin (emin + emin)); (assumption || lia).
  - unfold below; cbn [shr_record_of_loc shr_m loc_of_shr_record].
    split; [lia|]. split; [lia|]. split; [|congruence].
    rewrite Pos2Z.inj_mul.
    replace (eq + et - (emin + emin)) with ((eq - emin) + (et - emin)) by lia.
    replace (et - (emin + emin)) with (- emin + (et - emin)) by lia.
    rewrite !Z.pow_add_r by lia.
    assert (0 < 2 ^ (et - emin)) by (apply Z.pow_pos_nonneg; lia).
    assert (0 < Zpos mt) by lia.
    nia.
Qed.

(** The float 1, as a bounded mantissa and exponent. *)
Lemma one_bounded :
  bounded prec emax (Z.to_pos (2 ^ (prec - 1))) (1 - prec) = true /\
  Zpos (Z.to_pos (2 ^ (prec - 1))) = 2 ^ (prec - 1).
Proof.
  assert (Hp : 0 < 2 ^ (prec - 1)) by (apply Z.pow_pos_nonneg; lia).
  assert (E : Zpos (Z.to_pos (2 ^ (prec - 1))) = 2 ^ (prec - 1))
    by (apply Z2Pos.id; exact Hp).
  split; [|exact E].
  unfold bounded, canonical_mantissa.
  change (Zpos (digits2_pos (Z.to_pos (2 ^ (prec - 1)))))
    with (Zdigits2 (Zpos (Z.to_pos (2 ^ (prec - 1))))).
  rewrite E.
  assert (Hd : Zdigits2 (2 ^ (prec - 1)) = prec).
  { pose proof (Zdigits2_gt (2 ^ (prec - 1)) (prec - 1) ltac:(lia) ltac:(lia)).
    assert (2 ^ (prec - 1) < 2 ^ prec) by (apply Z.pow_lt_mono_r; lia).
    pose proof (Zdigits2_le (2 ^ (prec - 1)) prec ltac:(lia) ltac:(lia)). lia. }
  rewrite Hd. apply andb_true_iff; split.
  - apply Z.eqb_eq. unfold SpecFloat.fexp, SpecFloat.emin. lia.
  - apply Z.leb_le. lia.
Qed.

(** [x <= y] gives [x / y <= 1]. *)
Lemma SFdiv_le mx ex my ey :
  bounded prec emax mx ex = true -> bounded prec emax my ey = true ->
  Zpos mx * 2 ^ (ex - emin) <= Zpos my * 2 ^ (ey - emin) ->
  match SFdiv prec emax (S754_finite false mx ex) (S754_finite false my ey) with
  | S754_zero s' => s' = false
  | S754_finite s' m e =>
      s' = false /\ bounded prec emax m e = true /\
      Zpos m * 2 ^ (e - emin) <= 2 ^ (- emin)
  | _ => False
  end.
Proof.
  intros Hx Hy Hle. cbn [SFdiv xorb].
  destruct (bounded_canonical _ _ Hx) as (_ & _ & Hex & _).
  destruct (bounded_canonical _ _ Hy) as (_ & _ & Hey & _).
  destruct one_bounded as [H1b H1v].
  pose proof emin_nonpos as Hemin.
  pose proof (SFdiv_core_binary_spec (Zpos mx) ex (Zpos my) ey ltac:(lia) ltac:(lia)) as H.
  destruct (SFdiv_core_binary prec emax (Zpos mx) ex (Zpos my) ey) as [[q e'] l].
  destruct H as (Hq & Hpre & He' & _ & Hbelow).
  set (b := Z.min (Z.min e' (1 - prec)) emin).
  assert (Hp1 : 0 < 2 ^ (prec - 1)) by (apply Z.pow_pos_nonneg; lia).
  assert (HF : Zpos (Z.to_pos (2 ^ (prec - 1))) * 2 ^ (1 - prec - b) = 2 ^ (- b)).
  { rewrite H1v, <- Z.pow_add_r by lia. f_equal; lia. }
  pose proof (binary_round_aux_le b _ (1 - prec) false q e' l Hq Hpre H1b ltac:(lia)) as H.
  lapply H.
  - clear H. destruct (binary_round_aux _ _ _ _ _ _) as [s'|s'| |s' m e]; auto.
    intros (Hs & Hb & Hbe & Hle').
    split; [exact Hs|]. split; [exact Hb|].
    destruct (bounded_canonical _ _ Hb) as (_ & _ & He & _).
    rewrite HF in Hle'.
    replace (2 ^ (- b)) with (1 * 2 ^ (0 - b)) in Hle' by (rewrite Z.mul_1_l; f_equal; lia).
    apply (scaled_le_rebase emin b (Zpos m) e 1 0) in Hle'; try lia.
    rewrite Z.mul_1_l in Hle'. exact Hle'.
  - apply Hbelow; [lia|]. rewrite HF.
    (* both sides of the hypothesis, times 2^-b *)
    assert (Hpb : 0 < 2 ^ (- b)) by (apply Z.pow_pos_nonneg; lia).
    assert (Hpy : 0 < 2 ^ (ey - emin)) by (apply Z.pow_pos_nonneg; lia).
    assert (E : 2 ^ (ex - ey - e') * 2 ^ (e' - b) * 2 ^ (ey - emin)
                = 2 ^ (ex - emin) * 2 ^ (- b)).
    { rewrite <- !Z.pow_add_r by lia. f_equal; lia. }
    apply (Z.mul_le_mono_pos_r _ _ (2 ^ (ey - emin))); [exact Hpy|].
    replace (Zpos mx * 2 ^ (ex - ey - e') * 2 ^ (e' - b) * 2 ^ (ey - emin))
      with (Zpos mx * (2 ^ (ex - ey - e') * 2 ^ (e' - b) * 2 ^ (ey - emin))) by ring.
    rewrite E.
    replace (2 ^ (- b) * Zpos my * 2 ^ (ey - emin))
      with (Zpos my * 2 ^ (ey - emin) * 2 ^ (- b)) by ring.
    rewrite Z.mul_assoc.
    apply Z.mul_le_mono_nonneg_r; lia.
Qed.

(** The nearest float to a positive integer stays below every bounded
    float that the integer is not above. *)
Lemma binary_normalize_le n mf ef :
  0 < n -> bounded prec emax mf ef = true ->
  n * 2 ^ (- emin) <= Zpos mf * 2 ^ (ef - emin) ->
  match binary_normalize prec emax n 0 false with
  | S754_zero s' => s' = false
  | S754_finite s' m e =>
      s' = false /\ bounded prec emax m e = true /\
      Zpos m * 2 ^ (e - emin) <= Zpos mf * 2 ^ (ef - emin)
  | _ => False
  end.
Proof.
  intros Hn Hb Hle. destruct n as [|p|p]; try lia. cbn [binary_normalize].
  destruct (bounded_canonical _ _ Hb) as (_ & _ & Hef & _).
  pose proof emin_nonpos as Hemin.
  pose proof (binary_round_le emin mf ef false p 0 Hb Hef Hemin
                (fexp_ge_emin _)) as H.
  rewrite Z.sub_0_l in H. specialize (H Hle).
  destruct (binary_round prec emax false p 0) as [s'|s'| |s' m e]; auto.
  tauto.
Qed.

Lemma binary_normalize_rounded n :
  rounded (n <? 0) (binary_normalize prec emax n 0 false).
Proof.
  destruct n as [|p|p]; cbn [binary_normalize Z.ltb Z.compare].
  - reflexivity.
  - apply binary_round_rounded.
  - apply binary_round_rounded.
Qed.

(** Truncation never exceeds the value. *)
Lemma shiftl_scaled_le b m e :
  0 <= m -> b <= e -> b <= 0 -> Z.shiftl m e * 2 ^ (- b) <= m * 2 ^ (e - b).
Proof.
  intros Hm Hbe Hb0. rewrite (shiftl_scaled b) by assumption.
  rewrite Z.mul_comm. apply Z.mul_div_le. apply Z.pow_pos_nonneg; lia.
Qed.

End BinaryRounding.

(** ** Python floats are bounded *)

Lemma prec_pos : 0 < PyFloat.prec.
Proof. reflexivity. Qed.

Lemma prec_lt_emax : PyFloat.prec < PyFloat.emax.
Proof. reflexivity. Qed.

Lemma nearest_of_Z_rounded n :
  rounded PyFloat.prec PyFloat.emax (n <? 0) (PyFloat.nearest_of_Z n).
Proof. exact (binary_normalize_rounded PyFloat.prec PyFloat.emax prec_pos n). Qed.

Lemma rounded_is_valid s x :
  rounded PyFloat.prec PyFloat.emax s x -> valid PyFloat.prec PyFloat.emax x.
Proof. intros H. exact (proj1 (rounded_valid _ _ _ _ H)). Qed.

Lemma nearest_of_decimal_valid sg m d :
  valid PyFloat.prec PyFloat.emax (PyFloat.nearest_of_decimal sg m d).
Proof.
  unfold PyFloat.nearest_of_decimal. destruct m as [|p|p]; try reflexivity.
  destruct (0 <=? d).
  - eapply rounded_is_valid, (binary_normalize_rounded _ _ prec_pos).
  - eapply rounded_is_valid, (SFdiv_rounded _ _ prec_pos).
Qed.

Lemma of_string_valid s x :
  PyFloat.of_string s = Ok x -> valid PyFloat.prec PyFloat.emax x.
Proof.
  unfold PyFloat.of_string.
  destruct (PyFloat.read_sign _) as [sg body].
  destruct (_ || _); [intros [= <-]; reflexivity|].
  destruct (String.eqb _ "NAN"); [intros [= <-]; reflexivity|].
  destruct (PyFloat.remove_underscores _ _) as [t|]; [|discriminate].
  destruct (PyFloat.read_decimal t) as [[m d]|]; [|discriminate].
  intros [= <-]. apply nearest_of_decimal_valid.
Qed.

Lemma mul_int_valid x n y :
  valid PyFloat.prec PyFloat.emax x -> PyFloat.mul_int x n = Ok y ->
  valid PyFloat.prec PyFloat.emax y.
Proof.
  intros Hx. unfold PyFloat.mul_int, PyFloat.of_int.
  pose proof (rounded_is_valid _ _ (nearest_of_Z_rounded n)) as Hv.
  destruct (PyFloat.nearest_of_Z n) eqn:E; cbn; try discriminate;
    intros [= <-];
    apply (SFmul_valid _ _ prec_pos prec_lt_emax); assumption.
Qed.

(** Every size is the [int] of a bounded float. *)
Lemma parse_size_to_bytes_source s T :
  parse_size_to_bytes s = Ok T ->
  exists y, valid PyFloat.prec PyFloat.emax y /\ PyFloat.to_int y = Ok T.
Proof.
  assert (H0 : exists y, valid PyFloat.prec PyFloat.emax y /\ PyFloat.to_int y = Ok 0)
    by (exists PyFloat.zero; split; reflexivity).
  assert (Hunit : forall t k,
            (x ← PyFloat.of_string t; y ← PyFloat.mul_int x k; PyFloat.to_int y) = Ok T ->
            exists y, valid PyFloat.prec PyFloat.emax y /\ PyFloat.to_int y = Ok T).
  { intros t k. unfold mbind, result_bind.
    destruct (PyFloat.of_string t) as [x|] eqn:Ex; [|discriminate].
    destruct (PyFloat.mul_int x k) as [y|] eqn:Ey; [|discriminate].
    intros Hy. exists y. split; [|exact Hy].
    eapply mul_int_valid; [eapply of_string_valid; exact Ex | exact Ey]. }
  unfold parse_size_to_bytes.
  destruct (_ || _); [intros [= <-]; exact H0|].
  set (u := if PyStr.endswith _ "B" then _ else _).
  destruct (PyStr.endswith u "K"); [apply Hunit|].
  destruct (PyStr.endswith u "M"); [apply Hunit|].
  destruct (PyStr.endswith u "G"); [apply Hunit|].
  unfold except_ValueError, mbind, result_bind.
  destruct (PyFloat.of_string u) as [x|[[] txt]] eqn:Ex; try discriminate.
  - destruct (PyFloat.to_int x) as [n|[[] txt]] eqn:En; try discriminate.
    + intros [= <-]. exists x. split; [eapply of_string_valid; exact Ex | exact En].
    + intros [= <-]; exact H0.
  - intros [= <-]; exact H0.
Qed.

(** [int] of a float whose sign bit is set is never positive. *)
Lemma to_int_negative x n :
  rounded PyFloat.prec PyFloat.emax true x -> PyFloat.to_int x = Ok n -> n <= 0.
Proof.
  destruct x as [s|s| |s m e]; cbn; try discriminate.
  - intros _ [= <-]; lia.
  - intros [-> _] [= <-]. cbn.
    pose proof (Z.shiftl_nonneg (Zpos m) e). lia.
Qed.

(** The progress formula of the source never exceeds the total when the
    percentage is at most 100: the quotient by 100 is at most 1, the
    product with the total is at most the total, and [int] truncates. *)
Lemma int_bytes_downloaded_le p t x T B :
  PyFloat.of_string p = Ok x ->
  SFleb x (PyFloat.nearest_of_Z 100) = true ->
  parse_size_to_bytes t = Ok T -> 0 < T ->
  int_bytes_downloaded p t = Ok B ->
  B <= T.
Proof.
  intros Hp Hle Ht HT HB.
  pose proof (of_string_valid _ _ Hp) as Hvx.
  destruct (parse_size_to_bytes_source _ _ Ht) as (y & Hvy & Hy).
  pose proof prec_pos as Hprec. pose proof prec_lt_emax as Hemax.
  pose proof (emin_nonpos _ _ Hprec Hemax) as Hemin.
  (* the total is the truncation of a positive bounded float *)
  destruct y as [sy|sy| |sy my ey]; cbn in Hy; try discriminate;
    [injection Hy as <-; lia|].
  injection Hy as Hy.
  destruct sy; cbn in Hy;
    [pose proof (Z.shiftl_nonneg (Zpos my) ey); lia|].
  unfold valid in Hvy; cbn in Hvy.
  destruct (bounded_canonical _ _ _ _ Hvy) as (_ & _ & Hey & _).
  (* its nearest float is not above that float *)
  pose proof (binary_normalize_le _ _ Hprec Hemax T my ey HT Hvy) as Htf.
  lapply Htf; [clear Htf; intros Htf|].
  2: { rewrite <- Hy. apply shiftl_scaled_le; lia. }
  fold (PyFloat.nearest_of_Z T) in Htf.
  unfold int_bytes_downloaded in HB. rewrite Hp, Ht in HB.
  unfold mbind, result_bind, PyFloat.div_int, PyFloat.mul_int, PyFloat.of_int in HB.
  change (PyFloat.nearest_of_Z 100) with (S754_finite false 7036874417766400 (-46)) in *.
  cbn [PyFloat.truediv PyFloat.is_zero mbind result_bind] in HB.
  set (c := S754_finite false 7036874417766400 (-46)) in *.
  assert (Hc : bounded PyFloat.prec PyFloat.emax 7036874417766400 (-46) = true)
    by reflexivity.
  destruct (PyFloat.nearest_of_Z T) as [st|st| |st mt et] eqn:Etf; try contradiction;
    cbn [mbind result_bind] in HB.
  - (* the total rounds to zero *)
    destruct (PyFloat.div x c) as [sq|sq| |sq mq eq]; cbn in HB;
      try discriminate; injection HB as <-; lia.
  - destruct Htf as (-> & Hbt & Hty).
    destruct (bounded_canonical _ _ _ _ Hbt) as (_ & _ & Het & _).
    destruct x as [sx|sx| |sx mx ex].
    + (* 0% *)
      cbn in HB. injection HB as <-; lia.
    + destruct sx; [cbn in HB; discriminate | cbn in Hle; discriminate].
    + cbn in Hle; discriminate.
    + unfold valid in Hvx; cbn in Hvx.
      pose proof (SFdiv_rounded PyFloat.prec PyFloat.emax Hprec sx mx ex false 7036874417766400 (-46)) as Hq.
      fold c in Hq. fold (PyFloat.div (S754_finite sx mx ex) c) in Hq.
      destruct sx.
      * (* a negative percentage *)
        destruct (PyFloat.div (S754_finite true mx ex) c) as [sq|sq| |sq mq eq];
          cbn in Hq; try contradiction.
        { cbn in HB. injection HB as <-; lia. }
        { cbn in HB. discriminate. }
        destruct Hq as [-> Hbq].
        pose proof (SFmul_rounded PyFloat.prec PyFloat.emax Hprec Hemax true mq eq false mt et Hbq Hbt) as Hr.
        pose proof (to_int_negative _ B Hr HB). lia.
      * (* between 0% and 100% *)
        pose proof (SFleb_scaled PyFloat.prec PyFloat.emax _ _ _ _ Hvx Hc Hle) as Hxc.
        pose proof (SFdiv_le PyFloat.prec PyFloat.emax Hprec Hemax _ _ _ _ Hvx Hc Hxc) as Hq1.
        fold c in Hq1. fold (PyFloat.div (S754_finite false mx ex) c) in Hq1.
        destruct (PyFloat.div (S754_finite false mx ex) c) as [sq|sq| |sq mq eq];
          try contradiction.
        { cbn in HB. injection HB as <-; lia. }
        destruct Hq1 as (-> & Hbq & Hq1).
        pose proof (SFmul_le PyFloat.prec PyFloat.emax Hprec Hemax _ _ _ _ Hbq Hbt Hq1) as Hr.
        fold (PyFloat.mul (S754_finite false mq eq) (S754_finite false mt et)) in Hr.
        destruct (PyFloat.mul (S754_finite false mq eq) (S754_finite false mt et))
          as [sr|sr| |sr mr er]; try contradiction.
        { cbn in HB. injection HB as <-; lia. }
        destruct Hr as (-> & Hbr & Hrt).
        destruct (bounded_canonical _ _ _ _ Hbr) as (_ & _ & Her & _).
        cbn in HB. injection HB as <-. rewrite <- Hy.
        apply (shiftl_le (emin PyFloat.prec PyFloat.emax)); try assumption.
        etransitivity; eassumption.
Qed.

(** ** The HTTP strategy: sampling the speed *)

(** One turn of the loop, spelled out. *)
Lemma chunk_step_run self l chunk now σ :
  let σw :=
    set_bytes_downloaded (bytes_downloaded σ + len chunk)
      (set_fs (alter (append_to chunk) (download_path self) (fs σ))
         (set_io (io σ ++ [FileWrite (download_path self) chunk]) σ)) in
  let time_diff := PyFloat.sub now (last_update_time l) in
  chunk_step self l chunk now σ =
    if PyFloat.ltb half time_diff then
      if PyFloat.ltb PyFloat.zero time_diff then
        match PyFloat.int_div (bytes_downloaded σw - last_downloaded l) time_diff with
        | Ok x => (Ok (Locals now (bytes_downloaded σw)),
                   set_download_speed (NumFloat x) σw)
        | Raise e => (Raise e, σw)
        end
      else (Ok (Locals now (bytes_downloaded σw)), set_download_speed (NumInt 0) σw)
    else (Ok l, σw).
Proof.
  unfold chunk_step, file_write; unfold_M; cbn.
  repeat (break_if; cbn); try reflexivity.
  destruct (PyFloat.int_div _ _); reflexivity.
Qed.

(** Between two samples [last_downloaded] is what [bytes_downloaded] was
    at the last one, so it never exceeds it. *)
Lemma loop_reach_last_downloaded self l0 σ0 l σ :
  loop_reach self l0 σ0 l σ ->
  last_downloaded l0 <= bytes_downloaded σ0 ->
  last_downloaded l <= bytes_downloaded σ.
Proof.
  induction 1 as [|l σ chunk now l' σ' _ IH Hstep]; intros H0; [exact H0|].
  specialize (IH H0). revert Hstep. rewrite chunk_step_run; cbv zeta.
  assert (0 <= len chunk) by (unfold len; lia).
  repeat break_if; try destruct (PyFloat.int_div _ _); try discriminate;
    intros [= <- <-]; cbn; lia.
Qed.

(** More than half a second is more than nothing. *)
Lemma ltb_half_positive td :
  PyFloat.ltb half td = true ->
  PyFloat.ltb PyFloat.zero td = true /\ PyFloat.is_zero td = false /\
  (td = S754_infinity false \/ exists m e, td = S754_finite false m e).
Proof.
  change half with (S754_finite false 4503599627370496 (-53)).
  destruct td as [s|[]| |[] m e]; cbn; try discriminate; intros _;
    repeat split; eauto.
Qed.

(** [float(n)] for a natural number: zero or positive, and finite unless
    the conversion raises [OverflowError]. *)
Lemma of_int_natural n :
  0 <= n ->
  match PyFloat.of_int n with
  | Ok b => b = S754_zero false \/
            exists m e, b = S754_finite false m e /\
                        bounded PyFloat.prec PyFloat.emax m e = true
  | Raise e => exn_cls e = OverflowError
  end.
Proof.
  intros Hn. unfold PyFloat.of_int.
  pose proof (nearest_of_Z_rounded n) as Hr.
  replace (n <? 0) with false in Hr by (symmetry; apply Z.ltb_ge; exact Hn).
  destruct (PyFloat.nearest_of_Z n) as [s|s| |s m e]; cbn in Hr; try contradiction.
  - left; congruence.
  - reflexivity.
  - destruct Hr as [-> Hb]. right; eauto.
Qed.

(** A natural number of bytes over a positive time is a number, and not
    a negative one. *)
Lemma speed_not_negative b td :
  (b = S754_zero false \/ exists m e, b = S754_finite false m e) ->
  (td = S754_infinity false \/ exists m e, td = S754_finite false m e) ->
  rounded PyFloat.prec PyFloat.emax false (PyFloat.div b td).
Proof.
  intros [->|(m & e & ->)] [->|(m' & e' & ->)]; try reflexivity.
  exact (SFdiv_rounded PyFloat.prec PyFloat.emax prec_pos false m e false m' e').
Qed.

Lemma rounded_not_negative x :
  rounded PyFloat.prec PyFloat.emax false x ->
  PyFloat.ltb x PyFloat.zero = false /\ x <> S754_nan.
Proof.
  destruct x as [s|s| |s m e]; cbn; try contradiction.
  - intros ->; split; [reflexivity | discriminate].
  - intros ->; split; [reflexivity | discriminate].
  - intros [-> _]; split; [reflexivity | discriminate].
Qed.

(** The next turn of the loop, in any state that the loop reaches. *)
Lemma chunk_step_sample self l0 σ0 l σ chunk now :
  last_downloaded l0 = bytes_downloaded σ0 ->
  loop_reach self l0 σ0 l σ ->
  let time_diff := PyFloat.sub now (last_update_time l) in
  let bytes_diff := bytes_downloaded σ + len chunk - last_downloaded l in
  let '(r, σ') := chunk_step self l chunk now σ in
  0 <= bytes_diff /\
  (PyFloat.ltb half time_diff = false ->
   r = Ok l /\ download_speed σ' = download_speed σ) /\
  (PyFloat.ltb half time_diff = true ->
   PyFloat.ltb PyFloat.zero time_diff = true /\
   PyFloat.is_zero time_diff = false /\
   match PyFloat.of_int bytes_diff with
   | Ok b =>
       r = Ok (Locals now (bytes_downloaded σ')) /\
       download_speed σ' = NumFloat (PyFloat.div b time_diff) /\
       PyFloat.ltb (PyFloat.div b time_diff) PyFloat.zero = false /\
       PyFloat.div b time_diff <> S754_nan
   | Raise e =>
       r = Raise e /\ exn_cls e = OverflowError /\
       download_speed σ' = download_speed σ
   end).
Proof.
  intros H0 Hreach.
  pose proof (loop_reach_last_downloaded _ _ _ _ _ Hreach ltac:(lia)) as Hinv.
  assert (Hlen : 0 <= len chunk) by (unfold len; lia).
  cbv zeta. rewrite chunk_step_run; cbn [bytes_downloaded set_bytes_downloaded].
  set (time_diff := PyFloat.sub now (last_update_time l)).
  set (bytes_diff := bytes_downloaded σ + len chunk - last_downloaded l).
  assert (Hbd : 0 <= bytes_diff) by (subst bytes_diff; lia).
  destruct (PyFloat.ltb half time_diff) eqn:Eh.
  - destruct (ltb_half_positive _ Eh) as (Hpos & Hnz & Hshape).
    rewrite Hpos. unfold PyFloat.int_div, PyFloat.truediv. rewrite Hnz.
    pose proof (of_int_natural bytes_diff Hbd) as Hb.
    unfold mbind, result_bind.
    destruct (PyFloat.of_int bytes_diff) as [b|e].
    + split; [exact Hbd|]. split; [discriminate|]. intros _.
      split; [reflexivity|]. split; [reflexivity|].
      split; [reflexivity|]. split; [reflexivity|].
      apply rounded_not_negative, speed_not_negative; [|exact Hshape].
      destruct Hb as [->|(m & e & -> & _)]; eauto.
    + split; [exact Hbd|]. split; [discriminate|]. intros _.
      repeat split; try reflexivity. exact Hb.
  - split; [exact Hbd|]. split; [intros _; split; reflexivity | discriminate].
Qed.

(** ** The progress model *)

Lemma grows_refl σ : grows σ σ.
Proof. unfold grows; lia. Qed.

Lemma grows_trans σ1 σ2 σ3 : grows σ1 σ2 -> grows σ2 σ3 -> grows σ1 σ3.
Proof. unfold grows; lia. Qed.

#[local] Hint Resolve grows_refl : keeps.
#[local] Hint Extern 1 (grows _ _) => (unfold grows, len; cbn; lia) : keeps.

Ltac grows_tac := repeat preserves_step grows_refl grows_trans.

Lemma chunk_step_grows self l chunk now :
  preserves grows (chunk_step self l chunk now).
Proof. unfold chunk_step, file_write; grows_tac. Qed.

#[local] Hint Resolve chunk_step_grows : keeps.

Lemma chunk_loop_grows self l evs : preserves grows (chunk_loop self l evs).
Proof.
  revert l; induction evs as [|[data now|e] evs IH]; intros l; cbn; grows_tac.
Qed.

#[local] Hint Resolve chunk_loop_grows : keeps.

Lemma open_file_grows path mode : preserves grows (open_file path mode).
Proof.
  unfold open_file; grows_tac.
  destruct (fs _ !! path) as [[c|]|]; grows_tac.
Qed.

#[local] Hint Resolve open_file_grows : keeps.

Lemma download_attempt_grows self env u resume_from l :
  preserves grows (download_attempt self env u resume_from l).
Proof. unfold download_attempt; grows_tac. Qed.

(** C7, as stated, fails. Between two progress lines of yt-dlp
    [bytes_downloaded] falls from 810 to 50 (the percentage restarts with
    the next stream) while [total_size] is positive; and an HTTP answer
    that announces 3 bytes and delivers 5 leaves [bytes_downloaded] = 5
    above [total_size] = 3. *)
Lemma progress_invariants_fail :
  let σ1 := snd (progress_line progress_90 (fresh downloads_only)) in
  let σ2 := snd (progress_line progress_10 σ1) in
  let σh := snd (download_file file_item
                   (server_gives (Response 200 "" (Some "3") [Chunk "hello" (seconds 1)]))
                   file_url 0 (fresh downloads_only)) in
  (bytes_downloaded σ1 = 810 /\ bytes_downloaded σ2 = 50 /\
   bytes_downloaded σ2 < bytes_downloaded σ1 /\ 0 < total_size σ2) /\
  (0 < total_size σh /\ total_size σh < bytes_downloaded σh).
Proof. vm_compute. repeat split; reflexivity. Qed.

(** C7, amended: in the HTTP strategy [bytes_downloaded] never decreases
    from the moment it is seeded with the offset, each chunk adding its
    length; at the end of a run whose answer announced [n] bytes,
    [bytes_downloaded <= total_size] holds exactly when the bytes counted
    in this run do not exceed [n]. In the yt-dlp strategy, after a
    progress line whose percentage is at most 100,
    [bytes_downloaded <= total_size] whenever [total_size > 0]; between
    two progress lines [bytes_downloaded] may decrease. *)
Theorem progress_invariants_amended :
  (forall self l chunk now σ,
     bytes_downloaded σ <= bytes_downloaded (snd (chunk_step self l chunk now σ))) /\
  (forall self env u resume_from σ,
     resume_from <= bytes_downloaded (snd (download_file self env u resume_from σ))) /\
  (forall self env u resume_from σ r n,
     0 <= resume_from ->
     stream env u (range_headers resume_from) = Ok r ->
     status_code r = 200 \/ status_code r = 206 ->
     content_length_int r = Ok n ->
     fs σ !! download_path self <> Some Dir ->
     let σ' := snd (download_file self env u resume_from σ) in
     bytes_downloaded σ' <= total_size σ' <->
     bytes_downloaded σ' - resume_from <= n) /\
  (forall line σ σ' p t s e x,
     Re.match_ 4 progress_re (PyStr.strip line) =
       Some [Some p; Some t; Some s; Some e] ->
     PyFloat.of_string p = Ok x ->
     SFleb x (PyFloat.nearest_of_Z 100) = true ->
     progress_line line σ = (Ok tt, σ') ->
     0 < total_size σ' ->
     bytes_downloaded σ' <= total_size σ').
Proof.
  split; [|split; [|split]].
  - intros self l chunk now σ. exact (chunk_step_grows self l chunk now σ).
  - intros self env u resume_from σ.
    pose proof (download_attempt_grows self env u resume_from
                  (Locals (monotonic0 env) resume_from)
                  (set_bytes_downloaded resume_from σ)) as Hg.
    destruct (download_attempt _ _ _ _ _ _) as [res σ1] eqn:E.
    destruct (download_file_except self env u resume_from σ res σ1 E) as (_ & -> & _).
    exact Hg.
  - intros self env u resume_from σ r n H0 Hs Hst Hn Hd.
    pose proof (download_attempt_effect self env u resume_from
                  (Locals (monotonic0 env) resume_from)
                  (set_bytes_downloaded resume_from σ)) as H.
    destruct (download_attempt _ _ _ _ _ _) as [res σ1] eqn:E.
    destruct (download_file_except self env u resume_from σ res σ1 E)
      as (_ & Hb & Ht & _).
    destruct H as (rest & _ & _ & H). destruct (H r n Hs Hst Hn Hd) as (Htot & _).
    cbv zeta. rewrite Hb, Ht, Htot.
    destruct (Z.ltb_spec 0 resume_from); lia.
  - intros line σ σ' p t s e x Hm Hp Hle Hrun Hpos.
    unfold progress_line in Hrun. rewrite Hm in Hrun.
    fold (int_bytes_downloaded p t) in Hrun.
    destruct (int_bytes_downloaded p t) as [B|err] eqn:EB; [|discriminate].
    destruct (parse_size_to_bytes t) as [T|err] eqn:ET; [|discriminate].
    destruct (parse_size_to_bytes s) as [S|err] eqn:ES; [|discriminate].
    rewrite Hp in Hrun. unfold_M; cbn in Hrun.
    injection Hrun as <-. cbn in *.
    exact (int_bytes_downloaded_le p t x T B Hp Hle ET Hpos EB).
Qed.

Lemma progress_invariants_amended_witness :
  let σ' := snd (progress_line progress_90 (fresh downloads_only)) in
  bytes_downloaded σ' = 810 /\ total_size σ' = 900 /\
  bytes_downloaded σ' <= total_size σ'.
Proof.
  intros σ'. split; [reflexivity|]. split; [reflexivity|].
  destruct progress_invariants_amended as (_ & _ & _ & H).
  apply (H progress_90 (fresh downloads_only) σ' "90.0" "900.00B" "100.00B" "00:01"
           (PyFloat.nearest_of_Z 90)); vm_compute; reflexivity.
Defined.

(** ** Instances of the button properties *)

Lemma cancel_is_the_only_deletion_witness :
  let σ' := snd (on_button_pressed file_item "cancel" (fresh partial_download)) in
  fs σ' !! "downloads/a.bin" = None /\
  fs σ' !! DOWNLOADS_DIR = Some Dir /\
  posted σ' = [DownloadCancelled file_url].
Proof.
  destruct (cancel_is_the_only_deletion file_item (fresh partial_download))
    as (Hc & _).
  destruct (Hc "0123") as (σ' & E & Hfs & Hp & _); [reflexivity|].
  cbv zeta. rewrite E; cbn [snd]. rewrite Hfs, Hp.
  repeat split; vm_compute; reflexivity.
Defined.

Lemma youtube_cancel_removes_directory_witness :
  is_Some (Re.match_ 3 youtube_re video_url) /\
  download_path video_item = "downloads" /\
  fst (on_button_pressed video_item "cancel" (fresh partial_download)) =
    Raise is_a_directory /\
  fs (snd (on_button_pressed video_item "cancel" (fresh partial_download)))
    !! "downloads/a.bin" = Some (File "0123").
Proof.
  assert (Hm : is_Some (Re.match_ 3 youtube_re video_url)) by (vm_compute; eauto).
  destruct (youtube_cancel_removes_directory id id video_url Hm)
    as (_ & Hp & _ & Hc & Ho).
  fold video_item in Hp, Hc, Ho.
  split; [exact Hm|]. split; [exact Hp|].
  destruct (Hc (fresh partial_download)) as (σ' & E & _); [reflexivity|].
  split; [rewrite E; reflexivity|].
  rewrite (Ho (fresh partial_download) "downloads/a.bin"); [reflexivity|discriminate].
Defined.

(** ** The HTTP strategy: the speed over a whole run *)

Lemma keeps_inv_refl I σ : keeps_inv I σ σ.
Proof. intros H; exact H. Qed.

Lemma keeps_inv_trans I σ1 σ2 σ3 :
  keeps_inv I σ1 σ2 -> keeps_inv I σ2 σ3 -> keeps_inv I σ1 σ3.
Proof. unfold keeps_inv; auto. Qed.

#[local] Hint Resolve keeps_inv_refl : keeps.
#[local] Hint Extern 1 (keeps_inv (run_inv _ _) _ _) =>
  (unfold keeps_inv, run_inv, speed_ok; cbn; tauto) : keeps.

Ltac inv_tac s0 r :=
  repeat preserves_step (keeps_inv_refl (run_inv s0 r)) (keeps_inv_trans (run_inv s0 r)).

(** One turn of the loop keeps [speed_ok], never lowers
    [bytes_downloaded], and leaves [last_downloaded] not above it. *)
Lemma chunk_step_speed s0 self l chunk now σ :
  last_downloaded l <= bytes_downloaded σ -> speed_ok s0 σ ->
  let '(r, σ') := chunk_step self l chunk now σ in
  speed_ok s0 σ' /\ bytes_downloaded σ <= bytes_downloaded σ' /\
  forall l', r = Ok l' -> last_downloaded l' <= bytes_downloaded σ'.
Proof.
  intros Hinv Hs. rewrite chunk_step_run; cbv zeta.
  assert (Hlen : 0 <= len chunk) by (unfold len; lia).
  set (td := PyFloat.sub now (last_update_time l)).
  destruct (PyFloat.ltb half td) eqn:Eh.
  - destruct (ltb_half_positive _ Eh) as (Hpos & Hnz & Hshape). rewrite Hpos.
    cbn [bytes_downloaded set_bytes_downloaded].
    set (bd := bytes_downloaded σ + len chunk - last_downloaded l).
    pose proof (of_int_natural bd ltac:(subst bd; lia)) as Hb.
    unfold PyFloat.int_div, PyFloat.truediv, mbind, result_bind. rewrite Hnz.
    destruct (PyFloat.of_int bd) as [b|e].
    + split; [|split; [cbn; lia | intros l' [= <-]; cbn; lia]].
      right. eexists; split; [reflexivity|].
      apply rounded_not_negative, speed_not_negative; [|exact Hshape].
      destruct Hb as [->|(m & e & -> & _)]; eauto.
    + split; [exact Hs|]. split; [cbn; lia | discriminate].
  - split; [exact Hs|]. split; [cbn; lia | intros l' [= <-]; cbn; lia].
Qed.

Lemma chunk_loop_speed s0 resume_from self evs : forall l σ,
  last_downloaded l <= bytes_downloaded σ -> run_inv s0 resume_from σ ->
  run_inv s0 resume_from (snd (chunk_loop self l evs σ)).
Proof.
  induction evs as [|[data now|e] evs IH]; intros l σ Hinv [Hs Hr]; cbn.
  - split; assumption.
  - unfold mbind, M_bind.
    pose proof (chunk_step_speed s0 self l data now σ Hinv Hs) as H.
    destruct (chunk_step self l data now σ) as [[l'|e] σ1];
      destruct H as (Hs1 & Hb1 & Hl1).
    + apply IH; [apply Hl1; reflexivity | split; [exact Hs1 | lia]].
    + split; [exact Hs1 | cbn; lia].
  - split; assumption.
Qed.

Lemma open_file_inv s0 r path mode :
  preserves (keeps_inv (run_inv s0 r)) (open_file path mode).
Proof.
  unfold open_file; inv_tac s0 r.
  destruct (fs _ !! path) as [[c|]|]; inv_tac s0 r.
Qed.

Lemma download_file_inv s0 self env u resume_from :
  preserves (keeps_inv (run_inv s0 resume_from))
    (try_except
       (download_attempt self env u resume_from (Locals (monotonic0 env) resume_from))
       (fun e =>
          match exn_cls e with
          | CancelledError => mret tt
          | _ =>
              post_message (DownloadFailed (url self) (exn_text e)) ;;
              modify (set_pause_resume_disabled true) ;;
              modify (set_cancel_label "Failed")
          end)).
Proof.
  unfold download_attempt.
  pose proof (open_file_inv s0 resume_from) as Ho.
  assert (Hl : forall evs,
            preserves (keeps_inv (run_inv s0 resume_from))
              (chunk_loop self (Locals (monotonic0 env) resume_from) evs)).
  { intros evs σ Hi. apply chunk_loop_speed; [apply Hi | exact Hi]. }
  inv_tac s0 resume_from.
  destruct (exn_cls _); inv_tac s0 resume_from.
Qed.

(** C8: in every state that the chunk loop of [download_file] reaches,
    the next turn leaves [download_speed] alone unless the clock has
    advanced by more than 0.5 since the last sample; when it has, the
    divisor is positive (so neither zero nor negative), the bytes counted
    since the last sample are not negative, and the speed stored is their
    quotient, which is a number and is not negative; the only way the
    sample can fail is the conversion of the byte count to a float. Over
    a whole run of [download_file], [download_speed] ends as it started or
    as a float that is a number and is not negative. *)
Theorem speed_sample_interval :
  (forall self l0 σ0 l σ chunk now,
     last_downloaded l0 = bytes_downloaded σ0 ->
     loop_reach self l0 σ0 l σ ->
     let time_diff := PyFloat.sub now (last_update_time l) in
     let bytes_diff := bytes_downloaded σ + len chunk - last_downloaded l in
     let '(r, σ') := chunk_step self l chunk now σ in
     0 <= bytes_diff /\
     (PyFloat.ltb half time_diff = false ->
      r = Ok l /\ download_speed σ' = download_speed σ) /\
     (PyFloat.ltb half time_diff = true ->
      PyFloat.ltb PyFloat.zero time_diff = true /\
      PyFloat.is_zero time_diff = false /\
      match PyFloat.of_int bytes_diff with
      | Ok b =>
          r = Ok (Locals now (bytes_downloaded σ')) /\
          download_speed σ' = NumFloat (PyFloat.div b time_diff) /\
          PyFloat.ltb (PyFloat.div b time_diff) PyFloat.zero = false /\
          PyFloat.div b time_diff <> S754_nan
      | Raise e =>
          r = Raise e /\ exn_cls e = OverflowError /\
          download_speed σ' = download_speed σ
      end)) /\
  (forall self env u resume_from σ,
     speed_ok (download_speed σ) (snd (download_file self env u resume_from σ))).
Proof.
  split.
  - exact chunk_step_sample.
  - intros self env u resume_from σ.
    unfold download_file. rewrite bind_eq; unfold modify at 1; cbv beta iota.
    apply (download_file_inv (download_speed σ) self env u resume_from
             (set_bytes_downloaded resume_from σ)).
    split; [left; reflexivity | cbn; lia].
Qed.

Lemma speed_sample_interval_witness :
  speed_float (snd (chunk_step file_item (Locals PyFloat.zero 0) "hello" (seconds 1)
                      (fresh downloads_only))) = Some (seconds 5).
Proof.
  pose proof (proj1 speed_sample_interval file_item (Locals PyFloat.zero 0)
                (fresh downloads_only) (Locals PyFloat.zero 0) (fresh downloads_only)
                "hello" (seconds 1) eq_refl (reach_entry _ _ _)) as H.
  cbv zeta in H.
  destruct (chunk_step file_item (Locals PyFloat.zero 0) "hello" (seconds 1)
              (fresh downloads_only)) as [r σ'].
  destruct H as (_ & _ & H). destruct (H eq_refl) as (_ & _ & H').
  change (PyFloat.of_int (bytes_downloaded (fresh downloads_only) + len "hello"
                          - last_downloaded (Locals PyFloat.zero 0)))
    with (Ok (seconds 5) : result PyFloat.float) in H'.
  destruct H' as (_ & E & _). cbn [snd]. unfold speed_float. rewrite E.
  vm_compute. reflexivity.
Defined.
